(** * chained.functions.lambded: expression builders compiled to lambdas

    A shallow embedding of [src/chained/functions/lambded.py].

    A [LambdaExpr] object carries a tuple of tokens and a [_lambda] slot.
    Operators build new objects from the tokens of their operands; calling
    an object compiles the tokens once with [eval] and stores the compiled
    function in the [_lambda] slot.  [_registered_vars] is a module-level
    set of names shared by every object.

    Python objects have identity and the [_lambda] slot is assigned after
    construction, so objects live in a store and are denoted by their
    location.  Methods are computations in a state-and-exception monad over
    that store.

    Embedded: construction, rendering, attribute access, the call
    combinator, the unary, comparison, arithmetic and conversion
    operators, compilation and invocation, the placeholders and the two
    markers, and the subscript and membership methods ([__contains__]
    for an item that is a literal). *)

From stdpp Require Import base strings list gmap sorting pretty.

Local Open Scope string_scope.
Local Open Scope list_scope.

(** ** Python values that occur as tokens and arguments *)

(** The literals a caller can hand to an operator.  [VList] stands for the
    unhashable literals: [set(self._tokens)] raises on them. *)
Inductive value :=
  | VStr (s : string)
  | VInt (z : Z)
  | VBool (b : bool)
  | VNone
  | VList (zs : list Z).

Global Instance value_eq_dec : EqDecision value.
Proof. solve_decision. Defined.

(** [isinstance(v, str)] *)
Definition is_str (v : value) : bool :=
  match v with VStr _ => true | _ => false end.

(** [str(v)] *)
Definition str (v : value) : string :=
  match v with
  | VStr s => s
  | VInt z => pretty z
  | VBool true => "True"
  | VBool false => "False"
  | VNone => "None"
  | VList zs => "[" ++ String.concat ", " (pretty <$> zs) ++ "]"
  end.

(** [type(v).__name__] *)
Definition type_name (v : value) : string :=
  match v with
  | VStr _ => "str"
  | VInt _ => "int"
  | VBool _ => "bool"
  | VNone => "NoneType"
  | VList _ => "list"
  end.

(** [hash(v)] is defined *)
Definition hashable (v : value) : bool :=
  match v with VList _ => false | _ => true end.

(** [str(type(v))] *)
Definition type_repr (v : value) : string :=
  "<class '" ++ type_name v ++ "'>".

(** [''.join(map(str, tokens))] *)
Definition join_tokens (tokens : list value) : string :=
  String.concat "" (str <$> tokens).

(** ** Exceptions and results *)

Inductive exn :=
  | NameError (msg : string)
  | TypeError (msg : string)
  | IndexError (msg : string)
  | Raised (cls msg : string)   (* raised by [eval] or by a compiled function *)
  | Dangling.                   (* a location outside the store; no Python counterpart *)

Inductive result (A : Type) :=
  | Ok (a : A)
  | Raise (e : exn).
Arguments Ok {A} a.
Arguments Raise {A} e.

Definition result_bind {A B} (r : result A) (k : A → result B) : result B :=
  match r with Ok a => k a | Raise e => Raise e end.

(** ** The registry and the argument list *)

(** The string tokens: only they can be equal to a registered name, the
    registry holding nothing but [str] objects. *)
Definition token_names (tokens : list value) : list string :=
  omap (λ v, match v with VStr s => Some s | _ => None end) tokens.

(** [sorted(...)] on a set of names: ascending in the order of [str]. *)
Definition sorted (names : gset string) : list string :=
  merge_sort String.le (elements names).

(** [LambdaExpr._get_args]: [sorted(set(self._tokens) & _registered_vars)].
    Building the set hashes every token. *)
Definition _get_args (tokens : list value) (registered : gset string)
  : result (list string) :=
  if forallb hashable tokens
  then Ok (sorted (list_to_set (token_names tokens) ∩ registered))
  else Raise (TypeError "unhashable type: 'list'").

(** ** The Python runtime the module calls into

    [str.isidentifier], [keyword.iskeyword], the builtin [eval] applied to
    the source of a lambda, and the call of the function it returns.  They
    are not code of this module; the development is parametric in them. *)
Class Runtime := {
  callable : Type;
  pyobj : Type;
  isidentifier : string → bool;
  iskeyword : string → bool;
  py_eval : string → result callable;
  py_call : callable → list pyobj → list (string * pyobj) → result pyobj;
}.

(** ** Objects and the store *)

Abbreviation loc := nat (only parsing).

Inductive class := LambdaExpr | LambdaVar | LambdaArgs | LambdaKwargs.

Global Instance class_eq_dec : EqDecision class.
Proof. solve_decision. Defined.

(** Every class derives from [LambdaExpr]; the placeholders derive from
    [LambdaVar] and inherit its [__str__]. *)
Definition is_var (c : class) : bool :=
  match c with LambdaExpr => false | _ => true end.

(** Right operands: [isinstance(right, LambdaExpr)] or a literal. *)
Inductive operand :=
  | Expr (l : loc)
  | Lit (v : value).

Section lambded.
Context `{Runtime}.

(** The [_lambda] slot: never assigned (the variadic markers skip
    [LambdaExpr.__init__]), [partial(_call_monkey_patcher, self)], or the
    function returned by [eval]. *)
Inductive slot :=
  | Unset
  | Patcher (self : loc)
  | Compiled (f : callable).

Record obj := Obj {
  cls : class;
  _tokens : list value;
  _lambda : slot;
}.

(** [compilations] is a ghost log: [_eval] appends the object it is
    called on.  Nothing reads it. *)
Record state := State {
  _registered_vars : gset string;
  heap : list obj;
  LambdaArgs_instance : option loc;
  LambdaKwargs_instance : option loc;
  compilations : list loc;
}.

Definition initial : state := State ∅ [] None None [].

(** ** The monad *)

Definition M (A : Type) : Type := state → result A * state.

Definition ret {A} (a : A) : M A := λ st, (Ok a, st).
Definition raise {A} (e : exn) : M A := λ st, (Raise e, st).
Definition lift {A} (r : result A) : M A := λ st, (r, st).
Definition bind {A B} (m : M A) (k : A → M B) : M B := λ st,
  match m st with
  | (Ok a, st') => k a st'
  | (Raise e, st') => (Raise e, st')
  end.

Notation "x <- m ;; k" := (bind m (λ x, k))
  (at level 100, m at next level, right associativity).

Definition get_obj (l : loc) : M obj := λ st,
  (match heap st !! l with Some o => Ok o | None => Raise Dangling end, st).

Definition get_registered : M (gset string) := λ st, (Ok (_registered_vars st), st).

(** [_registered_vars.add(name)] *)
Definition registered_add (name : string) : M unit := λ st,
  (Ok tt, State ({[name]} ∪ _registered_vars st) (heap st)
             (LambdaArgs_instance st) (LambdaKwargs_instance st) (compilations st)).

(** A new object; its location is the next free one. *)
Definition new_obj (o : loc → obj) : M loc := λ st,
  let l := length (heap st) in
  (Ok l, State (_registered_vars st) (heap st ++ [o l])
            (LambdaArgs_instance st) (LambdaKwargs_instance st) (compilations st)).

(** [self._lambda = f] *)
Definition set_lambda (self : loc) (f : slot) : M unit := λ st,
  (Ok tt, State (_registered_vars st)
             (alter (λ o, Obj (cls o) (_tokens o) f) self (heap st))
             (LambdaArgs_instance st) (LambdaKwargs_instance st) (compilations st)).

Definition log_compilation (self : loc) : M unit := λ st,
  (Ok tt, State (_registered_vars st) (heap st)
             (LambdaArgs_instance st) (LambdaKwargs_instance st)
             (compilations st ++ [self])).

(** ** LambdaExpr *)

(** [LambdaExpr.__init__], run on a new object of class [c]
    ([object.__new__] and [__init__] in one step: the store receives the
    object when its constructor returns). *)
Definition LambdaExpr__init__ (c : class) (tokens : list value) : M loc :=
  new_obj (λ self, Obj c tokens (Patcher self)).

(** The constructor call of [LambdaExpr] on a tuple of tokens *)
Definition LambdaExpr_ (tokens : list value) : M loc :=
  LambdaExpr__init__ LambdaExpr tokens.

(** [LambdaExpr.__str__] *)
Definition LambdaExpr__str__ (o : obj) : result string :=
  Ok (join_tokens (_tokens o)).

(** [LambdaVar.__str__]: [self._tokens[0]], which [str()] requires to be
    a [str]. *)
Definition LambdaVar__str__ (o : obj) : result string :=
  match _tokens o with
  | [] => Raise (IndexError "tuple index out of range")
  | VStr s :: _ => Ok s
  | v :: _ => Raise (TypeError ("__str__ returned non-string (type " ++ type_name v ++ ")"))
  end.

(** [str(self)], dispatched on the class of the object *)
Definition str_obj (o : obj) : result string :=
  if is_var (cls o) then LambdaVar__str__ o else LambdaExpr__str__ o.

Definition __str__ (self : loc) : M string :=
  o <- get_obj self ;; lift (str_obj o).

(** [LambdaExpr.__getattr__] *)
Definition __getattr__ (self : loc) (name : string) : M loc :=
  o <- get_obj self ;;
  LambdaExpr_ (VStr "(" :: _tokens o ++ [VStr (")." ++ name)]).

(** [LambdaExpr._collapse] *)
Definition _collapse (self : loc) (right : operand) (inter_tokens : list string) : M loc :=
  o <- get_obj self ;;
  match right with
  | Expr r =>
      ro <- get_obj r ;;
      LambdaExpr_ (VStr "(" :: _tokens o ++ VStr ")" :: (VStr <$> inter_tokens) ++ _tokens ro)
  | Lit v =>
      LambdaExpr_ (VStr "(" :: _tokens o ++ VStr ")" :: (VStr <$> inter_tokens) ++ [v])
  end.

(** The source handed to [eval]:
    [f'lambda {",".join(self._get_args())}:{self}'] *)
Definition lambda_source (o : obj) (registered : gset string) : result string :=
  result_bind (_get_args (_tokens o) registered) (λ args,
  result_bind (str_obj o) (λ body,
  Ok ("lambda " ++ String.concat "," args ++ ":" ++ body)%string)).

(** [LambdaExpr._eval] *)
Definition _eval (self : loc) : M callable :=
  _ <- log_compilation self ;;
  o <- get_obj self ;;
  registered <- get_registered ;;
  source <- lift (lambda_source o registered) ;;
  evaluated_lambda <- lift (py_eval source) ;;
  _ <- set_lambda self (Compiled evaluated_lambda) ;;
  ret evaluated_lambda.

(** [_call_monkey_patcher] *)
Definition _call_monkey_patcher (self : loc) (args : list pyobj)
    (kwargs : list (string * pyobj)) : M pyobj :=
  f <- _eval self ;; lift (py_call f args kwargs).

(** [LambdaExpr.__call__]: the call of [self._lambda].  On an object
    whose slot was never assigned the attribute lookup falls back to
    [__getattr__], which builds a fresh expression; that expression is
    what gets called, through its own patcher. *)
Definition __call__ (self : loc) (args : list pyobj)
    (kwargs : list (string * pyobj)) : M pyobj :=
  o <- get_obj self ;;
  match _lambda o with
  | Patcher target => _call_monkey_patcher target args kwargs
  | Compiled f => lift (py_call f args kwargs)
  | Unset =>
      e <- __getattr__ self "_lambda" ;;
      _call_monkey_patcher e args kwargs
  end.

(** *** The call combinator, method [_] of [LambdaExpr] *)

Definition positional_error (arg : value) : exn :=
  TypeError ("Arguments should be of type `str`, got `" ++ type_repr arg
             ++ "` (positional arg: " ++ str arg ++ ")").

Definition kwarg_error (k : string) (v : value) : exn :=
  TypeError ("Arguments should be of type `str`, got `" ++ type_repr v
             ++ "` (kwarg: " ++ k ++ "=" ++ str v ++ ")").

(** The loop [for arg in it] of [args_formatter] *)
Fixpoint args_formatter_loop (it : list value) : result (list value) :=
  match it with
  | [] => Ok []
  | arg :: it =>
      if is_str arg
      then result_bind (args_formatter_loop it) (λ rest, Ok (VStr "," :: arg :: rest))
      else Raise (positional_error arg)
  end.

(** [args_formatter], consumed to its end: the tokens it yields and the
    value it leaves in [need_kwarg_comma]. *)
Definition args_formatter (args : list value) : result (list value * bool) :=
  match args with
  | [] => Ok ([], false)
  | arg :: it =>
      if is_str arg
      then result_bind (args_formatter_loop it) (λ rest, Ok (arg :: rest, true))
      else Raise (positional_error arg)
  end.

(** The loop [for k, v in it] of [kwargs_formatter] *)
Fixpoint kwargs_formatter_loop (it : list (string * value)) : result (list value) :=
  match it with
  | [] => Ok []
  | (k, v) :: it =>
      if is_str v
      then result_bind (kwargs_formatter_loop it)
             (λ rest, Ok (VStr ("," ++ k ++ "=") :: v :: rest))
      else Raise (kwarg_error k v)
  end.

(** [kwargs_formatter]; it runs after [args_formatter] is exhausted and
    reads [need_kwarg_comma]. *)
Definition kwargs_formatter (need_kwarg_comma : bool) (kwargs : list (string * value))
  : result (list value) :=
  match kwargs with
  | [] => Ok []
  | (k, v) :: it =>
      if is_str v
      then result_bind (kwargs_formatter_loop it) (λ rest,
             Ok ((if need_kwarg_comma then [VStr ","] else [])
                 ++ VStr (k ++ "=") :: v :: rest))
      else Raise (kwarg_error k v)
  end.

(** Method [_]: both generators are unpacked into the argument tuple
    before [LambdaExpr] is constructed. *)
Definition call_ (self : loc) (args : list value) (kwargs : list (string * value)) : M loc :=
  o <- get_obj self ;;
  positional <- lift (args_formatter args) ;;
  keyword <- lift (kwargs_formatter positional.2 kwargs) ;;
  LambdaExpr_ (VStr "(" :: _tokens o ++ VStr ")(" :: positional.1 ++ keyword ++ [VStr ")"]).

(** *** Operators that enclose the tokens: [LambdaExpr(prefix, *self._tokens, ')')] *)

Definition enclose (prefix : string) (self : loc) : M loc :=
  o <- get_obj self ;;
  LambdaExpr_ (VStr prefix :: _tokens o ++ [VStr ")"]).

Definition __pos__ := enclose "+(".
Definition __neg__ := enclose "-(".
Definition __invert__ := enclose "~(".
Definition __abs__ := enclose "abs(".
Definition __int__ := enclose "int(".
Definition __float__ := enclose "float(".
Definition __complex__ := enclose "complex(".
Definition __oct__ := enclose "oct(".
Definition __hex__ := enclose "hex(".
Definition __hash__ := enclose "hash(".
Definition __nonzero__ := enclose "bool(".
Definition __len__ := enclose "len(".
Definition __iter__ := enclose "iter(".
Definition __reversed__ := enclose "reversed(".

(** [LambdaExpr.__divmod__]: [other] is not used. *)
Definition __divmod__ (self : loc) (other : operand) : M loc :=
  enclose "divmod(" self.

(** [LambdaExpr.__round__]; [None] is the omitted argument, whose default
    is the object [None]. *)
Definition __round__ (self : loc) (n : option operand) : M loc :=
  n <- match default (Lit VNone) n with
       | Expr r => ro <- get_obj r ;; ret (_tokens ro)
       | Lit v => ret [v]
       end ;;
  o <- get_obj self ;;
  LambdaExpr_ (VStr "round(" :: _tokens o ++ VStr "," :: n ++ [VStr ")"]).

(** *** Comparison and arithmetic operators *)

Definition __eq__ (self : loc) (other : operand) := _collapse self other ["=="].
Definition __ne__ (self : loc) (other : operand) := _collapse self other ["!="].
Definition __lt__ (self : loc) (other : operand) := _collapse self other ["<"].
Definition __gt__ (self : loc) (other : operand) := _collapse self other [">"].
Definition __le__ (self : loc) (other : operand) := _collapse self other ["<="].
Definition __ge__ (self : loc) (other : operand) := _collapse self other [">="].
Definition __add__ (self : loc) (other : operand) := _collapse self other ["+"].
Definition __sub__ (self : loc) (other : operand) := _collapse self other ["-"].
Definition __mul__ (self : loc) (other : operand) := _collapse self other ["*"].
Definition __floordiv__ (self : loc) (other : operand) := _collapse self other ["//"].
Definition __div__ (self : loc) (other : operand) := _collapse self other ["/"].
Definition __mod__ (self : loc) (other : operand) := _collapse self other ["%"].
Definition __pow__ (self : loc) (other : operand) := _collapse self other ["**"].
Definition __matmul__ (self : loc) (other : operand) := _collapse self other ["@"].
Definition __lshift__ (self : loc) (other : operand) := _collapse self other ["<<"].
Definition __rshift__ (self : loc) (other : operand) := _collapse self other [">>"].
Definition __and__ (self : loc) (other : operand) := _collapse self other ["&"].
Definition __or__ (self : loc) (other : operand) := _collapse self other ["|"].
Definition __xor__ (self : loc) (other : operand) := _collapse self other ["^"].

(** ** LambdaVar *)

Definition already_created (name : string) : exn :=
  NameError ("Name `" ++ name ++ "` has been already created").

Definition not_an_identifier (name : string) : exn :=
  NameError ("Name `" ++ name ++ "` is not a valid identifier").

(** [LambdaVar.__init__] *)
Definition LambdaVar__init__ (name : string) : M loc :=
  registered <- get_registered ;;
  if decide (name ∈ registered) then raise (already_created name)
  else if negb (isidentifier name) || iskeyword name then raise (not_an_identifier name)
  else
    _ <- registered_add name ;;
    LambdaExpr__init__ LambdaVar [VStr name].

(** ** LambdaArgs and LambdaKwargs *)

Definition get_LambdaArgs_instance : M (option loc) := λ st,
  (Ok (LambdaArgs_instance st), st).

Definition set_LambdaArgs_instance (l : loc) : M unit := λ st,
  (Ok tt, State (_registered_vars st) (heap st) (Some l)
             (LambdaKwargs_instance st) (compilations st)).

Definition get_LambdaKwargs_instance : M (option loc) := λ st,
  (Ok (LambdaKwargs_instance st), st).

Definition set_LambdaKwargs_instance (l : loc) : M unit := λ st,
  (Ok tt, State (_registered_vars st) (heap st) (LambdaArgs_instance st)
             (Some l) (compilations st)).

(** [LambdaArgs.__new__]: [hasattr(cls, 'instance')] is the test on the
    class attribute. *)
Definition LambdaArgs__new__ : M loc :=
  cached <- get_LambdaArgs_instance ;;
  match cached with
  | Some instance => ret instance
  | None =>
      instance <- new_obj (λ _, Obj LambdaArgs [VStr "*args"] Unset) ;;
      _ <- set_LambdaArgs_instance instance ;;
      _ <- registered_add "*args" ;;
      ret instance
  end.

(** [LambdaArgs.__init__]: [pass] *)
Definition LambdaArgs__init__ (self : loc) : M unit := ret tt.

(** The constructor call of [LambdaArgs] *)
Definition LambdaArgs_ : M loc :=
  instance <- LambdaArgs__new__ ;;
  _ <- LambdaArgs__init__ instance ;;
  ret instance.

(** [LambdaKwargs.__new__] *)
Definition LambdaKwargs__new__ : M loc :=
  cached <- get_LambdaKwargs_instance ;;
  match cached with
  | Some instance => ret instance
  | None =>
      instance <- new_obj (λ _, Obj LambdaKwargs [VStr "**kwargs"] Unset) ;;
      _ <- set_LambdaKwargs_instance instance ;;
      _ <- registered_add "**kwargs" ;;
      ret instance
  end.

(** [LambdaKwargs.__init__]: [pass] *)
Definition LambdaKwargs__init__ (self : loc) : M unit := ret tt.

(** The constructor call of [LambdaKwargs] *)
Definition LambdaKwargs_ : M loc :=
  instance <- LambdaKwargs__new__ ;;
  _ <- LambdaKwargs__init__ instance ;;
  ret instance.

(** ** Sequences of calls

    What a client can do with the module: construct objects and call the
    methods above on objects it holds. *)

Inductive unop :=
  | OpPos | OpNeg | OpInvert | OpAbs | OpInt | OpFloat | OpComplex | OpOct
  | OpHex | OpHash | OpNonzero | OpLen | OpIter | OpReversed.

Definition unary (op : unop) : loc → M loc :=
  match op with
  | OpPos => __pos__ | OpNeg => __neg__ | OpInvert => __invert__
  | OpAbs => __abs__ | OpInt => __int__ | OpFloat => __float__
  | OpComplex => __complex__ | OpOct => __oct__ | OpHex => __hex__
  | OpHash => __hash__ | OpNonzero => __nonzero__ | OpLen => __len__
  | OpIter => __iter__ | OpReversed => __reversed__
  end.

Inductive binop :=
  | OpEq | OpNe | OpLt | OpGt | OpLe | OpGe
  | OpAdd | OpSub | OpMul | OpFloordiv | OpDiv | OpMod | OpPow | OpMatmul
  | OpLshift | OpRshift | OpAnd | OpOr | OpXor.

(** The infix token each binary method passes to [_collapse] *)
Definition binop_token (op : binop) : string :=
  match op with
  | OpEq => "==" | OpNe => "!=" | OpLt => "<" | OpGt => ">" | OpLe => "<="
  | OpGe => ">=" | OpAdd => "+" | OpSub => "-" | OpMul => "*"
  | OpFloordiv => "//" | OpDiv => "/" | OpMod => "%" | OpPow => "**"
  | OpMatmul => "@" | OpLshift => "<<" | OpRshift => ">>" | OpAnd => "&"
  | OpOr => "|" | OpXor => "^"
  end.

Definition binary (op : binop) : loc → operand → M loc :=
  match op with
  | OpEq => __eq__ | OpNe => __ne__ | OpLt => __lt__ | OpGt => __gt__
  | OpLe => __le__ | OpGe => __ge__ | OpAdd => __add__ | OpSub => __sub__
  | OpMul => __mul__ | OpFloordiv => __floordiv__ | OpDiv => __div__
  | OpMod => __mod__ | OpPow => __pow__ | OpMatmul => __matmul__
  | OpLshift => __lshift__ | OpRshift => __rshift__ | OpAnd => __and__
  | OpOr => __or__ | OpXor => __xor__
  end.

Inductive call :=
  | New_LambdaExpr (tokens : list value)
  | New_LambdaVar (name : string)
  | New_LambdaArgs
  | New_LambdaKwargs
  | Getattr (self : loc) (name : string)
  | Call_ (self : loc) (args : list value) (kwargs : list (string * value))
  | Unary (op : unop) (self : loc)
  | Binary (op : binop) (self : loc) (other : operand)
  | Round (self : loc) (n : option operand)
  | Divmod (self : loc) (other : operand)
  | Str (self : loc)
  | Invoke (self : loc) (args : list pyobj) (kwargs : list (string * pyobj)).

(** The state a computation leaves, whether it returns or raises *)
Definition after {A} (m : M A) (st : state) : state := (m st).2.

Definition exec (c : call) : state → state :=
  match c with
  | New_LambdaExpr tokens => after (LambdaExpr_ tokens)
  | New_LambdaVar name => after (LambdaVar__init__ name)
  | New_LambdaArgs => after LambdaArgs_
  | New_LambdaKwargs => after LambdaKwargs_
  | Getattr self name => after (__getattr__ self name)
  | Call_ self args kwargs => after (call_ self args kwargs)
  | Unary op self => after (unary op self)
  | Binary op self other => after (binary op self other)
  | Round self n => after (__round__ self n)
  | Divmod self other => after (__divmod__ self other)
  | Str self => after (__str__ self)
  | Invoke self args kwargs => after (__call__ self args kwargs)
  end.

Definition run (cs : list call) (st : state) : state :=
  foldl (λ st c, exec c st) st cs.

(** ** Invariants of the store *)

(** A placeholder holds its name as its only token, and a patcher is
    bound to the object whose slot holds it. *)
Definition wf_obj (l : loc) (o : obj) : bool :=
  (if is_var (cls o)
   then match _tokens o with [VStr _] => true | _ => false end
   else true)
  && match _lambda o with
     | Patcher target => bool_decide (target = l)
     | _ => true
     end.

Definition wf (st : state) : bool :=
  forallb id (imap wf_obj (heap st)).

(** What every later state keeps of an earlier one: names stay
    registered, objects keep their class and their tokens, and the cached
    singletons stay. *)
Record extends (st st' : state) : Prop := Extends {
  ext_registered : _registered_vars st ⊆ _registered_vars st';
  ext_heap : ∀ l o, heap st !! l = Some o →
    ∃ o', heap st' !! l = Some o' ∧ cls o' = cls o ∧ _tokens o' = _tokens o;
  ext_args : ∀ l, LambdaArgs_instance st = Some l → LambdaArgs_instance st' = Some l;
  ext_kwargs : ∀ l, LambdaKwargs_instance st = Some l → LambdaKwargs_instance st' = Some l;
}.

(** The number of times [_eval] ran on [l] *)
Definition compiled_count (st : state) (l : loc) : nat :=
  count_occ Nat.eq_dec (compilations st) l.

(** A compiled slot keeps its function, and [_eval] does not run on the
    object again. *)
Definition keeps_compiled (st st' : state) : Prop :=
  ∀ l o f, heap st !! l = Some o → _lambda o = Compiled f →
    (∃ o', heap st' !! l = Some o' ∧ _lambda o' = Compiled f)
    ∧ compiled_count st' l = compiled_count st l.

Definition stays_wf (st st' : state) : Prop :=
  wf st = true → wf st' = true ∧ keeps_compiled st st'.

(** A computation relates the state it starts in to the state it leaves. *)
Definition preserves (R : state → state → Prop) {A} (m : M A) : Prop :=
  ∀ st, R st (after m st).

(** The state after the construction of a [LambdaExpr] *)
Definition with_new (st : state) (tokens : list value) : state :=
  State (_registered_vars st)
        (heap st ++ [Obj LambdaExpr tokens (Patcher (length (heap st)))])
        (LambdaArgs_instance st) (LambdaKwargs_instance st) (compilations st).

(** ** The subscript and membership methods *)

(** A replacement field of an f-string: [format(x, '')], which is the
    rendering of a builder and [str] of a literal. *)
Definition format_operand (x : operand) : M string :=
  match x with
  | Expr r => __str__ r
  | Lit v => ret (str v)
  end.

(** [LambdaExpr.__getitem__] *)
Definition __getitem__ (self : loc) (key : operand) : M loc :=
  o <- get_obj self ;;
  k <- format_operand key ;;
  LambdaExpr_ (VStr "(" :: _tokens o ++ [VStr (")[" ++ k ++ "]")]).

(** [LambdaExpr.__setitem__] *)
Definition __setitem__ (self : loc) (key value : operand) : M loc :=
  o <- get_obj self ;;
  k <- format_operand key ;;
  v <- format_operand value ;;
  LambdaExpr_ (VStr "(" :: _tokens o ++ [VStr (")[" ++ k ++ "]=" ++ v)]).

(** [LambdaExpr.__delitem__] *)
Definition __delitem__ (self : loc) (key : operand) : M loc :=
  o <- get_obj self ;;
  k <- format_operand key ;;
  LambdaExpr_ (VStr "del (" :: _tokens o ++ [VStr (")[" ++ k ++ "]")]).

(** [LambdaExpr.__contains__], for an item that is a literal: the item
    itself becomes the first token. *)
Definition __contains__ (self : loc) (item : value) : M loc :=
  o <- get_obj self ;;
  LambdaExpr_ (item :: VStr " in (" :: _tokens o ++ [VStr ")"]).



(** The text each enclosing method puts before the tokens *)
Definition unop_prefix (op : unop) : string :=
  match op with
  | OpPos => "+(" | OpNeg => "-(" | OpInvert => "~(" | OpAbs => "abs("
  | OpInt => "int(" | OpFloat => "float(" | OpComplex => "complex("
  | OpOct => "oct(" | OpHex => "hex(" | OpHash => "hash("
  | OpNonzero => "bool(" | OpLen => "len(" | OpIter => "iter("
  | OpReversed => "reversed("
  end.







(** ** Further invariants *)

(** The name a placeholder or marker object stands for *)
Definition placeholder_name (o : obj) : option string :=
  if is_var (cls o)
  then match _tokens o with [VStr name] => Some name | _ => None end
  else None.


(** What a call that constructs no placeholder leaves alone: the
    registry, the caches, and the placeholders of the store. *)
Record same_placeholders (st st' : state) : Prop := SamePlaceholders {
  sp_registered : _registered_vars st' = _registered_vars st;
  sp_args : LambdaArgs_instance st' = LambdaArgs_instance st;
  sp_kwargs : LambdaKwargs_instance st' = LambdaKwargs_instance st;
  sp_heap : ∀ l o', heap st' !! l = Some o' → is_var (cls o') = true →
    ∃ o, heap st !! l = Some o ∧ cls o = cls o' ∧ _tokens o = _tokens o';
}.

(** The registry is the same. *)
Definition same_registry (st st' : state) : Prop :=
  _registered_vars st' = _registered_vars st.


(** A slot that was never assigned stays so. *)
Definition keeps_unset (st st' : state) : Prop :=
  ∀ l o, heap st !! l = Some o → _lambda o = Unset →
    ∃ o', heap st' !! l = Some o' ∧ _lambda o' = Unset
          ∧ cls o' = cls o ∧ _tokens o' = _tokens o.

Definition stays_unset (st st' : state) : Prop :=
  wf st = true → wf st' = true ∧ keeps_unset st st'.

End lambded.

(** ** A runtime for the examples

    Names are ASCII; [eval] rejects a lambda without a body, as Python
    does, and otherwise returns the source as the function; calling a
    function returns its source.  Only the closed examples below use it. *)

Definition ascii_in (lo hi : N) (c : Ascii.ascii) : bool :=
  let n := Ascii.N_of_ascii c in (lo <=? n)%N && (n <=? hi)%N.

Definition id_start (c : Ascii.ascii) : bool :=
  ascii_in 65 90 c || ascii_in 97 122 c || ascii_in 95 95 c.

Definition id_continue (c : Ascii.ascii) : bool :=
  id_start c || ascii_in 48 57 c.

Definition ascii_isidentifier (s : string) : bool :=
  match s with
  | EmptyString => false
  | String c rest => id_start c && forallb id_continue (String.list_ascii_of_string rest)
  end.

Definition kwlist : list string :=
  ["False"; "None"; "True"; "and"; "as"; "assert"; "async"; "await"; "break";
   "class"; "continue"; "def"; "del"; "elif"; "else"; "except"; "finally";
   "for"; "from"; "global"; "if"; "import"; "in"; "is"; "lambda"; "nonlocal";
   "not"; "or"; "pass"; "raise"; "return"; "try"; "while"; "with"; "yield"].

(** The source ends at the colon of the lambda. *)
Definition empty_body (source : string) : bool :=
  match rev (String.list_ascii_of_string source) with
  | c :: _ => bool_decide (c = Ascii.ascii_of_nat 58)
  | [] => true
  end.

Definition example_runtime : Runtime := {|
  callable := string;
  pyobj := value;
  isidentifier := ascii_isidentifier;
  iskeyword := λ s, bool_decide (s ∈ kwlist);
  py_eval := λ source,
    if empty_body source
    then Raise (Raised "SyntaxError" "invalid syntax")
    else Ok source;
  py_call := λ f _ _, Ok (VStr f);
|}.

(** States of the examples: [x = LambdaVar('x'); y = LambdaVar('y')],
    then [y + x]; [x + [1]]; the two markers. *)
Definition xy : @state example_runtime :=
  run [New_LambdaVar "x"; New_LambdaVar "y"] initial.


Definition x_plus_list : @state example_runtime :=
  run [New_LambdaVar "x"; Binary OpAdd 0 (Lit (VList [1%Z]))] initial.

Definition markers : @state example_runtime :=
  run [New_LambdaArgs; New_LambdaKwargs] initial.

(** Each name prefixed by a comma *)
Definition comma_prefixed (xs : list string) : string :=
  String.concat "" ((λ x, "," ++ x)%string <$> xs).

(** The text of a keyword argument in a call *)
Definition kwarg_text (kv : string * value) : string :=
  (kv.1 ++ "=" ++ str kv.2)%string.

(** Occurrence of [n] inside [t], and occurrence as a proper part *)
Definition occurs_in (n t : string) : bool :=
  bool_decide (is_Some (String.index 0 n t)).

Definition proper_substring (n t : string) : bool :=
  occurs_in n t && negb (bool_decide (n = t)).

(** * Properties *)

(** ** The argument list *)

Lemma elem_of_token_names (tokens : list value) (s : string) :
  s ∈ token_names tokens ↔ VStr s ∈ tokens.
Proof.
  unfold token_names. rewrite list_elem_of_omap. split.
  - intros (v & Hv & Heq). destruct v; simplify_eq. done.
  - intros Hs. exists (VStr s). done.
Qed.

Lemma sorted_Permutation (names : gset string) : sorted names ≡ₚ elements names.
Proof. apply merge_sort_Permutation. Qed.

Lemma elem_of_sorted (names : gset string) (s : string) :
  s ∈ sorted names ↔ s ∈ names.
Proof. by rewrite sorted_Permutation, elem_of_elements. Qed.

Lemma sorted_StronglySorted (names : gset string) :
  StronglySorted String.le (sorted names).
Proof. apply StronglySorted_merge_sort; apply _. Qed.

Lemma sorted_NoDup (names : gset string) : NoDup (sorted names).
Proof. rewrite sorted_Permutation. apply NoDup_elements. Qed.

(** A sorted list without duplicates is determined by its elements. *)
Lemma sorted_unique (names : gset string) (l : list string) :
  StronglySorted String.le l → NoDup l → (∀ s, s ∈ l ↔ s ∈ names) →
  sorted names = l.
Proof.
  intros Hl Hnd Hin. apply (StronglySorted_unique String.le).
  - apply sorted_StronglySorted.
  - exact Hl.
  - apply NoDup_Permutation; [apply sorted_NoDup | exact Hnd |].
    intros s. by rewrite elem_of_sorted, Hin.
Qed.

Lemma get_args_hashable (tokens : list value) (registered : gset string) :
  forallb hashable tokens = true →
  _get_args tokens registered
  = Ok (sorted (list_to_set (token_names tokens) ∩ registered)).
Proof. intros Hh. unfold _get_args. by rewrite Hh. Qed.

Lemma get_args_unhashable (tokens : list value) (registered : gset string) :
  forallb hashable tokens = false →
  _get_args tokens registered = Raise (TypeError "unhashable type: 'list'").
Proof. intros Hh. unfold _get_args. by rewrite Hh. Qed.

Lemma elem_of_get_args_set (tokens : list value) (registered : gset string) (n : string) :
  n ∈ (list_to_set (token_names tokens) ∩ registered : gset string)
  ↔ n ∈ registered ∧ VStr n ∈ tokens.
Proof.
  rewrite elem_of_intersection, elem_of_list_to_set, elem_of_token_names. tauto.
Qed.

(** C1: the argument list of a builder whose tokens can be hashed is the
    ascending list, without repetition, of the registered names that
    occur as whole tokens; when those names are exactly x and y it is
    [x; y], whatever the order of the tokens. *)
Theorem get_args_sorted_registered_tokens
    (tokens : list value) (registered : gset string) :
  forallb hashable tokens = true →
  ∃ args, _get_args tokens registered = Ok args
    ∧ StronglySorted String.le args
    ∧ NoDup args
    ∧ (∀ n, n ∈ args ↔ n ∈ registered ∧ VStr n ∈ tokens)
    ∧ ((∀ n, n ∈ registered ∧ VStr n ∈ tokens ↔ n = "x" ∨ n = "y") →
       args = ["x"; "y"]).
Proof.
  intros Hh. eexists. split; [by apply get_args_hashable|].
  split; [apply sorted_StronglySorted|].
  split; [apply sorted_NoDup|].
  split.
  - intros n. by rewrite elem_of_sorted, elem_of_get_args_set.
  - intros Hxy. apply sorted_unique.
    + repeat constructor.
    + apply NoDup_cons. split; [by intros ?%list_elem_of_singleton|].
      apply NoDup_singleton.
    + intros s. rewrite elem_of_get_args_set, Hxy, !elem_of_cons, elem_of_nil.
      tauto.
Qed.

Lemma get_args_sorted_registered_tokens_witness :
  ∃ args,
    _get_args [VStr "("; VStr "y"; VStr ")"; VStr "+"; VStr "x"] {["x"; "y"; "z"]}
    = Ok args
    ∧ args = ["x"; "y"].
Proof.
  destruct (get_args_sorted_registered_tokens
              [VStr "("; VStr "y"; VStr ")"; VStr "+"; VStr "x"] {["x"; "y"; "z"]})
    as (args & Hargs & _ & _ & _ & Hxy); [reflexivity|].
  exists args. split; [exact Hargs|]. apply Hxy.
  intros n. rewrite !elem_of_union, !elem_of_singleton, !elem_of_cons, elem_of_nil.
  split.
  - intros [[[->| ->]| ->] Hn]; auto.
    destruct Hn as [?|[?|[?|[?|[?|[]]]]]]; discriminate.
  - intros [->| ->]; split; auto 10.
Defined.

(** The source of the lambda: the argument list joined by commas, then
    the rendering of the object. *)
Lemma lambda_source_eq `{Runtime} (o : obj) (registered : gset string)
    (args : list string) (body : string) :
  _get_args (_tokens o) registered = Ok args →
  str_obj o = Ok body →
  lambda_source o registered
  = Ok ("lambda " ++ String.concat "," args ++ ":" ++ body)%string.
Proof. intros Ha Hb. unfold lambda_source. by rewrite Ha, Hb. Qed.

(** C3, as the code has it: a registered name that occurs in the tokens
    only as a proper part of a token, never as a whole token, is left
    out of the argument list. *)
Theorem get_args_ignores_substrings
    (tokens : list value) (registered : gset string) (n t : string) :
  forallb hashable tokens = true →
  n ∈ registered →
  VStr t ∈ tokens →
  proper_substring n t = true →
  VStr n ∉ tokens →
  ∃ args, _get_args tokens registered = Ok args ∧ n ∉ args.
Proof.
  intros Hh _ _ _ Hn. eexists. split; [by apply get_args_hashable|].
  rewrite elem_of_sorted, elem_of_get_args_set. tauto.
Qed.

Lemma get_args_ignores_substrings_witness :
  ∃ args,
    _get_args [VStr "("; VStr "y"; VStr ").x"] {["x"; "y"]} = Ok args
    ∧ "x" ∉ args.
Proof.
  apply (get_args_ignores_substrings _ _ "x" ").x").
  - reflexivity.
  - rewrite elem_of_union, !elem_of_singleton. auto.
  - rewrite !elem_of_cons. auto.
  - reflexivity.
  - rewrite !elem_of_cons, elem_of_nil. intros [?|[?|[?|[]]]]; discriminate.
Defined.

(** C3 as stated fails: with x and y registered, the tokens of the
    attribute access [(y).x] contain x inside the token [).x] only, and
    the argument list is [y] alone. *)
Lemma get_args_substring_counterexample :
("x" ∈ ({["x"; "y"]} : gset string))
  ∧ proper_substring "x" ").x" = true
  ∧ (VStr "x" ∉ [VStr "("; VStr "y"; VStr ").x"])
  ∧ _get_args [VStr "("; VStr "y"; VStr ").x"] {["x"; "y"]} = Ok ["y"]
  ∧ "x" ∉ ["y"].
Proof.
  split; [rewrite elem_of_union, !elem_of_singleton; auto|].
  split; [reflexivity|].
  split; [rewrite !elem_of_cons, elem_of_nil; intros [?|[?|[?|[]]]]; discriminate|].
  split; [by vm_compute|].
  by intros ?%list_elem_of_singleton.
Qed.

(** ** Rendering *)

Lemma append_nil_r (s : string) : (s ++ "")%string = s.
Proof.
  induction s as [|c s IH]; [done|].
  change (String c (s ++ "")%string = String c s). by f_equal.
Qed.

Lemma append_assoc (s1 s2 s3 : string) :
  ((s1 ++ s2) ++ s3)%string = (s1 ++ (s2 ++ s3))%string.
Proof.
  induction s1 as [|c s1 IH]; [done|].
  change (String c ((s1 ++ s2) ++ s3)%string = String c (s1 ++ (s2 ++ s3))%string).
  by f_equal.
Qed.

Lemma concat_empty_cons (x : string) (xs : list string) :
  String.concat "" (x :: xs) = (x ++ String.concat "" xs)%string.
Proof. destruct xs; [by rewrite append_nil_r | done]. Qed.

Lemma concat_empty_app (xs ys : list string) :
  String.concat "" (xs ++ ys)
  = (String.concat "" xs ++ String.concat "" ys)%string.
Proof.
  induction xs as [|x xs IH]; [done|].
  rewrite <- app_comm_cons, !concat_empty_cons, IH. by rewrite append_assoc.
Qed.

Lemma join_tokens_cons (v : value) (tokens : list value) :
  join_tokens (v :: tokens) = (str v ++ join_tokens tokens)%string.
Proof. unfold join_tokens. rewrite fmap_cons. apply concat_empty_cons. Qed.

Lemma join_tokens_app (ts1 ts2 : list value) :
  join_tokens (ts1 ++ ts2) = (join_tokens ts1 ++ join_tokens ts2)%string.
Proof. unfold join_tokens. rewrite fmap_app. apply concat_empty_app. Qed.

Lemma join_tokens_singleton (v : value) : join_tokens [v] = str v.
Proof. reflexivity. Qed.

Section store.
Context `{Runtime}.

Implicit Types (st : state) (o : obj) (l self : loc).

Lemma wf_lookup st l o :
  wf st = true → heap st !! l = Some o → wf_obj l o = true.
Proof.
  unfold wf. rewrite forallb_forall. intros Hwf Hl.
  apply (Hwf (wf_obj l o)). apply list_elem_of_In, list_elem_of_lookup.
  exists l. by rewrite list_lookup_imap, Hl.
Qed.

Lemma wf_intro st :
  (∀ l o, heap st !! l = Some o → wf_obj l o = true) → wf st = true.
Proof.
  intros Hall. unfold wf. apply forallb_forall.
  intros b [l Hb]%list_elem_of_In%list_elem_of_lookup.
  rewrite list_lookup_imap in Hb.
  destruct (heap st !! l) as [o|] eqn:Hl; simplify_eq/=. by apply Hall.
Qed.

(** In a well-formed store every object renders as the concatenation of
    its tokens: the one token of a placeholder is its name. *)
Lemma str_obj_wf l o :
  wf_obj l o = true → str_obj o = Ok (join_tokens (_tokens o)).
Proof.
  unfold wf_obj, str_obj, LambdaVar__str__, LambdaExpr__str__.
  intros [Hv _]%andb_true_iff. destruct (is_var (cls o)); [|done].
  destruct (_tokens o) as [|[] []]; done.
Qed.

Lemma get_obj_lookup st l o : heap st !! l = Some o → get_obj l st = (Ok o, st).
Proof. intros Hl. unfold get_obj. by rewrite Hl. Qed.

Lemma str_lookup st l o :
  heap st !! l = Some o → __str__ l st = (str_obj o, st).
Proof. intros Hl. unfold __str__, bind, lift. by rewrite (get_obj_lookup _ _ o). Qed.

Lemma LambdaExpr_new st (tokens : list value) :
  LambdaExpr_ tokens st = (Ok (length (heap st)), with_new st tokens).
Proof. reflexivity. Qed.

Lemma with_new_lookup_new st (tokens : list value) :
  heap (with_new st tokens) !! length (heap st)
  = Some (Obj LambdaExpr tokens (Patcher (length (heap st)))).
Proof. simpl. by apply list_lookup_middle. Qed.

Lemma with_new_lookup_old st (tokens : list value) l o :
  heap st !! l = Some o → heap (with_new st tokens) !! l = Some o.
Proof. intros Hl. simpl. by apply lookup_app_l_Some. Qed.

Lemma str_new st (tokens : list value) :
  __str__ (length (heap st)) (with_new st tokens)
  = (Ok (join_tokens tokens), with_new st tokens).
Proof. by rewrite (str_lookup _ _ _ (with_new_lookup_new st tokens)). Qed.

Lemma binary_collapse (op : binop) self (other : operand) :
  binary op self other = _collapse self other [binop_token op].
Proof. by destruct op. Qed.

Lemma collapse_expr st self o r ro (inter_tokens : list string) :
  heap st !! self = Some o → heap st !! r = Some ro →
  _collapse self (Expr r) inter_tokens st
  = LambdaExpr_ (VStr "(" :: _tokens o ++ VStr ")" :: (VStr <$> inter_tokens) ++ _tokens ro) st.
Proof.
  intros Ho Hr. unfold _collapse, bind.
  by rewrite (get_obj_lookup _ _ o), (get_obj_lookup _ _ ro).
Qed.

Lemma collapse_lit st self o (v : value) (inter_tokens : list string) :
  heap st !! self = Some o →
  _collapse self (Lit v) inter_tokens st
  = LambdaExpr_ (VStr "(" :: _tokens o ++ VStr ")" :: (VStr <$> inter_tokens) ++ [v]) st.
Proof. intros Ho. unfold _collapse, bind. by rewrite (get_obj_lookup _ _ o). Qed.

Lemma enclose_lookup st (prefix : string) self o :
  heap st !! self = Some o →
  enclose prefix self st = LambdaExpr_ (VStr prefix :: _tokens o ++ [VStr ")"]) st.
Proof. intros Ho. unfold enclose, bind. by rewrite (get_obj_lookup _ _ o). Qed.

(** C2: for every infix method, the new builder renders as the left
    operand in parentheses, the operator token, and then the rendering
    of the right operand when it is a builder, its [str] when it is a
    literal. *)
Theorem binary_render_compositional st (op : binop) (a : loc) (oa : obj) :
  wf st = true →
  heap st !! a = Some oa →
  ∃ ra, __str__ a st = (Ok ra, st)
  ∧ (∀ b ob, heap st !! b = Some ob →
       ∃ c st' rb,
         binary op a (Expr b) st = (Ok c, st')
         ∧ __str__ b st = (Ok rb, st)
         ∧ __str__ c st' = (Ok ("(" ++ ra ++ ")" ++ binop_token op ++ rb)%string, st'))
  ∧ (∀ v : value,
       ∃ c st',
         binary op a (Lit v) st = (Ok c, st')
         ∧ __str__ c st' = (Ok ("(" ++ ra ++ ")" ++ binop_token op ++ str v)%string, st')).
Proof.
  intros Hwf Ha. exists (join_tokens (_tokens oa)).
  pose proof (str_obj_wf _ _ (wf_lookup _ _ _ Hwf Ha)) as Hra.
  split; [by rewrite (str_lookup _ _ oa), Hra|]. split.
  - intros b ob Hb.
    pose proof (str_obj_wf _ _ (wf_lookup _ _ _ Hwf Hb)) as Hrb.
    eexists _, _, (join_tokens (_tokens ob)).
    split; [rewrite binary_collapse, (collapse_expr _ _ oa _ ob) by done;
            apply LambdaExpr_new|].
    split; [by rewrite (str_lookup _ _ ob), Hrb|].
    rewrite str_new. do 2 f_equal.
    by rewrite join_tokens_cons, join_tokens_app, join_tokens_cons, join_tokens_app.
  - intros v. eexists _, _.
    split; [rewrite binary_collapse, (collapse_lit _ _ oa) by done;
            apply LambdaExpr_new|].
    rewrite str_new. do 2 f_equal.
    by rewrite join_tokens_cons, join_tokens_app, join_tokens_cons, join_tokens_app.
Qed.

(** C9: [__divmod__] drops its right operand: the new builder is
    [divmod(] followed by the tokens of the left operand and [)], it
    renders accordingly, and the outcome is the same for every operand. *)
Theorem divmod_ignores_operand st (a : loc) (oa : obj) (b : operand) :
  wf st = true →
  heap st !! a = Some oa →
  ∃ c st' ra,
    __divmod__ a b st = (Ok c, st')
    ∧ __str__ a st = (Ok ra, st)
    ∧ __str__ c st' = (Ok ("divmod(" ++ ra ++ ")")%string, st')
    ∧ heap st' !! c
      = Some (Obj LambdaExpr (VStr "divmod(" :: _tokens oa ++ [VStr ")"]) (Patcher c))
    ∧ ∀ b' : operand, __divmod__ a b' st = (Ok c, st').
Proof.
  intros Hwf Ha.
  pose proof (str_obj_wf _ _ (wf_lookup _ _ _ Hwf Ha)) as Hra.
  eexists _, _, (join_tokens (_tokens oa)).
  split; [unfold __divmod__; rewrite (enclose_lookup _ _ _ oa) by done;
          apply LambdaExpr_new|].
  split; [by rewrite (str_lookup _ _ oa), Hra|].
  split; [|split].
  - rewrite str_new. do 2 f_equal.
    by rewrite join_tokens_cons, join_tokens_app.
  - apply with_new_lookup_new.
  - intros b'. unfold __divmod__. rewrite (enclose_lookup _ _ _ oa) by done.
    apply LambdaExpr_new.
Qed.

Lemma round_lit st self o (n : option value) :
  heap st !! self = Some o →
  __round__ self (Lit <$> n) st
  = LambdaExpr_ (VStr "round(" :: _tokens o ++ VStr "," :: [default VNone n] ++ [VStr ")"]) st.
Proof.
  intros Ho. unfold __round__, bind, ret, get_obj.
  destruct n; simpl; by rewrite Ho.
Qed.

(** C10: without a precision the rounding combinator writes the text
    [None] in the precision slot; with an integer it writes the integer. *)
Theorem round_renders_precision st (a : loc) (oa : obj) :
  wf st = true →
  heap st !! a = Some oa →
  ∃ ra, __str__ a st = (Ok ra, st)
  ∧ (∃ c st',
       __round__ a None st = (Ok c, st')
       ∧ __str__ c st' = (Ok ("round(" ++ ra ++ ",None)")%string, st'))
  ∧ (∀ n : Z, ∃ c st',
       __round__ a (Some (Lit (VInt n))) st = (Ok c, st')
       ∧ __str__ c st' = (Ok ("round(" ++ ra ++ "," ++ str (VInt n) ++ ")")%string, st')).
Proof.
  intros Hwf Ha.
  pose proof (str_obj_wf _ _ (wf_lookup _ _ _ Hwf Ha)) as Hra.
  exists (join_tokens (_tokens oa)).
  split; [by rewrite (str_lookup _ _ oa), Hra|]. split.
  - eexists _, _. split; [rewrite (round_lit _ _ oa None) by done; apply LambdaExpr_new|].
    rewrite str_new. do 2 f_equal.
    by rewrite join_tokens_cons, join_tokens_app.
  - intros n. eexists _, _.
    split; [rewrite (round_lit _ _ oa (Some (VInt n))) by done; apply LambdaExpr_new|].
    rewrite str_new. do 2 f_equal.
    by rewrite join_tokens_cons, join_tokens_app, !join_tokens_cons.
Qed.

(** ** The call combinator *)

Lemma args_formatter_loop_cases (it : list value) :
  if forallb is_str it
  then ∃ tokens, args_formatter_loop it = Ok tokens
  else ∃ msg, args_formatter_loop it = Raise (TypeError msg).
Proof.
  induction it as [|arg it IH]; simpl; [by eexists|].
  destruct (is_str arg); simpl; [|by eexists].
  destruct (forallb is_str it).
  - destruct IH as [tokens ->]. by eexists.
  - destruct IH as [msg ->]. by eexists.
Qed.

Lemma args_formatter_cases (args : list value) :
  if forallb is_str args
  then ∃ tokens, args_formatter args = Ok tokens
  else ∃ msg, args_formatter args = Raise (TypeError msg).
Proof.
  destruct args as [|arg it]; simpl; [by eexists|].
  destruct (is_str arg); simpl; [|by eexists].
  pose proof (args_formatter_loop_cases it) as Hit.
  destruct (forallb is_str it).
  - destruct Hit as [tokens ->]. by eexists.
  - destruct Hit as [msg ->]. by eexists.
Qed.

Lemma kwargs_formatter_loop_cases (it : list (string * value)) :
  if forallb (λ kv, is_str kv.2) it
  then ∃ tokens, kwargs_formatter_loop it = Ok tokens
  else ∃ msg, kwargs_formatter_loop it = Raise (TypeError msg).
Proof.
  induction it as [|[k v] it IH]; simpl; [by eexists|].
  destruct (is_str v); simpl; [|by eexists].
  destruct (forallb _ it).
  - destruct IH as [tokens ->]. by eexists.
  - destruct IH as [msg ->]. by eexists.
Qed.

Lemma kwargs_formatter_cases (comma : bool) (kwargs : list (string * value)) :
  if forallb (λ kv, is_str kv.2) kwargs
  then ∃ tokens, kwargs_formatter comma kwargs = Ok tokens
  else ∃ msg, kwargs_formatter comma kwargs = Raise (TypeError msg).
Proof.
  destruct kwargs as [|[k v] it]; simpl; [by eexists|].
  destruct (is_str v); simpl; [|by eexists].
  pose proof (kwargs_formatter_loop_cases it) as Hit.
  destruct (forallb _ it).
  - destruct Hit as [tokens ->]. by eexists.
  - destruct Hit as [msg ->]. by eexists.
Qed.

Lemma forallb_false_intro {A} (f : A → bool) (l : list A) (x : A) :
  x ∈ l → f x = false → forallb f l = false.
Proof.
  intros Hx Hf. destruct (forallb f l) eqn:Hall; [|done].
  rewrite forallb_forall in Hall.
  rewrite (Hall x) in Hf; [done|]. by apply list_elem_of_In.
Qed.

(** C6: a positional argument or a keyword value that is not a [str]
    makes the call combinator raise [TypeError] at once; the store is
    left as it was, so no builder has been made. *)
Theorem call_rejects_non_str st (self : loc) (o : obj)
    (args : list value) (kwargs : list (string * value)) :
  heap st !! self = Some o →
  (∃ v, v ∈ args ∧ is_str v = false)
  ∨ (∃ k v, (k, v) ∈ kwargs ∧ is_str v = false) →
  ∃ msg, call_ self args kwargs st = (Raise (TypeError msg), st).
Proof.
  intros Ho Hbad. unfold call_, bind, lift.
  rewrite (get_obj_lookup _ _ o) by done.
  pose proof (args_formatter_cases args) as Hargs.
  destruct (forallb is_str args) eqn:Hall.
  - destruct Hargs as [positional ->].
    destruct Hbad as [(v & Hv & Hs)|(k & v & Hkv & Hs)].
    { by rewrite (forallb_false_intro _ _ v Hv Hs) in Hall. }
    pose proof (kwargs_formatter_cases positional.2 kwargs) as Hkw.
    rewrite (forallb_false_intro (λ kv, is_str kv.2) _ (k, v) Hkv Hs) in Hkw.
    destruct Hkw as [msg ->]. by eexists.
  - destruct Hargs as [msg ->]. by eexists.
Qed.

(** With [str] arguments only, the combinator returns a new builder. *)
Lemma call_accepts_str st (self : loc) (o : obj)
    (args : list value) (kwargs : list (string * value)) :
  heap st !! self = Some o →
  forallb is_str args = true →
  forallb (λ kv, is_str kv.2) kwargs = true →
  ∃ tokens, call_ self args kwargs st = (Ok (length (heap st)), with_new st tokens).
Proof.
  intros Ho Ha Hk. unfold call_, bind, lift.
  rewrite (get_obj_lookup _ _ o) by done.
  pose proof (args_formatter_cases args) as Hargs. rewrite Ha in Hargs.
  destruct Hargs as [positional ->].
  pose proof (kwargs_formatter_cases positional.2 kwargs) as Hkw. rewrite Hk in Hkw.
  destruct Hkw as [keyword ->]. eexists. apply LambdaExpr_new.
Qed.

End store.

(** ** Relations that every call respects

    A preorder on states that the elementary updates respect is respected
    by every method, hence by every sequence of calls.  The updates of
    the singleton caches and of the [_lambda] slot are only required to
    respect it where the code performs them: on an empty cache, and on
    the object a patcher is bound to. *)

Section invariant.
Context `{Runtime}.
Variable R : state → state → Prop.
Context `{!PreOrder R}.

Implicit Types (st : state) (o : obj) (l self : loc).

Hypothesis R_add : ∀ name, preserves R (registered_add name).
Hypothesis R_new : ∀ f : loc → obj,
  (∀ l, wf_obj l (f l) = true) → preserves R (new_obj f).
Hypothesis R_args : ∀ st l,
  LambdaArgs_instance st = None → R st (after (set_LambdaArgs_instance l) st).
Hypothesis R_kwargs : ∀ st l,
  LambdaKwargs_instance st = None → R st (after (set_LambdaKwargs_instance l) st).
Hypothesis R_log : ∀ st self o target,
  heap st !! self = Some o → _lambda o = Patcher target →
  R st (after (log_compilation target) st).
Hypothesis R_set : ∀ st self o target f,
  heap st !! self = Some o → _lambda o = Patcher target →
  R st (after (set_lambda target (Compiled f)) st).

Lemma preserves_ret {A} (a : A) : preserves R (ret a).
Proof. intros st. reflexivity. Qed.

Lemma preserves_raise {A} (e : exn) : preserves R (raise (A:=A) e).
Proof. intros st. reflexivity. Qed.

Lemma preserves_lift {A} (r : result A) : preserves R (lift r).
Proof. intros st. reflexivity. Qed.

Lemma preserves_get_obj l : preserves R (get_obj l).
Proof. intros st. reflexivity. Qed.

Lemma preserves_get_registered : preserves R get_registered.
Proof. intros st. reflexivity. Qed.

Lemma preserves_bind {A B} (m : M A) (k : A → M B) :
  preserves R m → (∀ a, preserves R (k a)) → preserves R (bind m k).
Proof.
  intros Hm Hk st. specialize (Hm st). unfold after, bind in *.
  destruct (m st) as [[a|e] st1]; simpl in *; [|done].
  etrans; [exact Hm|]. apply Hk.
Qed.

Lemma preserves_LambdaExpr__init__ (c : class) (tokens : list value) :
  (is_var c = true → ∃ name, tokens = [VStr name]) →
  preserves R (LambdaExpr__init__ c tokens).
Proof.
  intros Hc. apply R_new. intros l. unfold wf_obj. simpl.
  rewrite bool_decide_true by done. rewrite andb_true_r.
  destruct (is_var c); [|done]. by destruct Hc as [name ->].
Qed.

Lemma preserves_LambdaExpr_ (tokens : list value) : preserves R (LambdaExpr_ tokens).
Proof. by apply preserves_LambdaExpr__init__. Qed.

Local Ltac preserve :=
  repeat first
    [ apply preserves_bind; [|intros ?]
    | apply preserves_get_obj
    | apply preserves_get_registered
    | apply preserves_lift
    | apply preserves_ret
    | apply preserves_raise
    | apply preserves_LambdaExpr_
    | apply R_add ].

Lemma preserves_getattr self (name : string) : preserves R (__getattr__ self name).
Proof. unfold __getattr__. preserve. Qed.

Lemma preserves_collapse self (other : operand) (inter_tokens : list string) :
  preserves R (_collapse self other inter_tokens).
Proof. unfold _collapse. preserve. destruct other; preserve. Qed.

Lemma preserves_binary (op : binop) self (other : operand) :
  preserves R (binary op self other).
Proof. rewrite binary_collapse. apply preserves_collapse. Qed.

Lemma preserves_enclose (prefix : string) self : preserves R (enclose prefix self).
Proof. unfold enclose. preserve. Qed.

Lemma preserves_unary (op : unop) self : preserves R (unary op self).
Proof. destruct op; apply preserves_enclose. Qed.

Lemma preserves_divmod self (other : operand) : preserves R (__divmod__ self other).
Proof. apply preserves_enclose. Qed.

Lemma preserves_round self (n : option operand) : preserves R (__round__ self n).
Proof. unfold __round__. preserve. destruct (default _ n); preserve. Qed.

Lemma preserves_call_ self (args : list value) (kwargs : list (string * value)) :
  preserves R (call_ self args kwargs).
Proof. unfold call_. preserve. Qed.

Lemma preserves_str self : preserves R (__str__ self).
Proof. unfold __str__. preserve. Qed.

Lemma preserves_LambdaVar__init__ (name : string) :
  preserves R (LambdaVar__init__ name).
Proof.
  unfold LambdaVar__init__. preserve.
  case_decide; [preserve|]. destruct (_ || _); preserve.
  apply preserves_LambdaExpr__init__. by eexists.
Qed.

Lemma preserves_LambdaArgs_ : preserves R LambdaArgs_.
Proof.
  intros st. unfold after, LambdaArgs_, LambdaArgs__new__, LambdaArgs__init__,
    bind, ret, get_LambdaArgs_instance. simpl.
  destruct (LambdaArgs_instance st) as [l|] eqn:Hl; simpl; [reflexivity|].
  etrans; [apply (R_new (λ _, Obj LambdaArgs [VStr "*args"] Unset)); done|].
  etrans; [apply (R_args _ (length (heap st))); exact Hl|].
  exact (R_add "*args" _).
Qed.

Lemma preserves_LambdaKwargs_ : preserves R LambdaKwargs_.
Proof.
  intros st. unfold after, LambdaKwargs_, LambdaKwargs__new__, LambdaKwargs__init__,
    bind, ret, get_LambdaKwargs_instance. simpl.
  destruct (LambdaKwargs_instance st) as [l|] eqn:Hl; simpl; [reflexivity|].
  etrans; [apply (R_new (λ _, Obj LambdaKwargs [VStr "**kwargs"] Unset)); done|].
  etrans; [apply (R_kwargs _ (length (heap st))); exact Hl|].
  exact (R_add "**kwargs" _).
Qed.

(** [_eval] on the object a patcher is bound to: the log grows, and the
    slot is assigned when the source is accepted. *)
Lemma R_call_monkey_patcher st self o target
    (args : list pyobj) (kwargs : list (string * pyobj)) :
  heap st !! self = Some o → _lambda o = Patcher target →
  R st (after (_call_monkey_patcher target args kwargs) st).
Proof.
  intros Ho Hp.
  pose proof (R_log st self o target Ho Hp) as Hlog.
  unfold after, _call_monkey_patcher, _eval, bind, lift, ret, get_registered.
  simpl. unfold get_obj. simpl.
  destruct (heap st !! target) as [ot|]; simpl; [|exact Hlog].
  destruct (lambda_source ot _) as [source|]; simpl; [|exact Hlog].
  destruct (py_eval source) as [f|]; simpl; [|exact Hlog].
  etrans; [exact Hlog|].
  apply (R_set (after (log_compilation target) st) self o target f Ho Hp).
Qed.

Lemma preserves_invoke self (args : list pyobj) (kwargs : list (string * pyobj)) :
  preserves R (__call__ self args kwargs).
Proof.
  intros st. unfold after, __call__, bind. unfold get_obj at 1.
  destruct (heap st !! self) as [o|] eqn:Ho; simpl; [|reflexivity].
  destruct (_lambda o) as [|target|f] eqn:Hp.
  - unfold __getattr__, bind. rewrite (get_obj_lookup _ _ o) by done.
    set (tokens := VStr "(" :: _).
    change (LambdaExpr_ tokens st) with (Ok (length (heap st)), with_new st tokens).
    simpl.
    etrans; [exact (preserves_LambdaExpr_ tokens st)|].
    change (after (LambdaExpr_ tokens) st) with (with_new st tokens).
    eapply (R_call_monkey_patcher (with_new st tokens)); [apply with_new_lookup_new|done].
  - by apply (R_call_monkey_patcher st self o target).
  - reflexivity.
Qed.

Lemma exec_R (c : call) st : R st (exec c st).
Proof.
  destruct c; simpl.
  - apply preserves_LambdaExpr_.
  - apply preserves_LambdaVar__init__.
  - apply preserves_LambdaArgs_.
  - apply preserves_LambdaKwargs_.
  - apply preserves_getattr.
  - apply preserves_call_.
  - apply preserves_unary.
  - apply preserves_binary.
  - apply preserves_round.
  - apply preserves_divmod.
  - apply preserves_str.
  - apply preserves_invoke.
Qed.

Lemma run_R (cs : list call) st : R st (run cs st).
Proof.
  revert st. induction cs as [|c cs IH]; intros st; simpl; [reflexivity|].
  etrans; [apply (exec_R c)|]. apply IH.
Qed.

End invariant.

(** ** The two relations *)

Section relations.
Context `{Runtime}.

Implicit Types (st : state) (o : obj) (l self : loc).

Global Instance extends_preorder : PreOrder extends.
Proof.
  split.
  - intros st. split; [done| |done|done]. intros l o Hl. by exists o.
  - intros st1 st2 st3 [Hr1 Hh1 Ha1 Hk1] [Hr2 Hh2 Ha2 Hk2]. split.
    + by etrans.
    + intros l o Hl. destruct (Hh1 l o Hl) as (o2 & Hl2 & Hc2 & Ht2).
      destruct (Hh2 l o2 Hl2) as (o3 & Hl3 & Hc3 & Ht3).
      exists o3. split; [done|]. split; congruence.
    + auto.
    + auto.
Qed.

Lemma extends_add (name : string) : preserves extends (registered_add name).
Proof.
  intros st. split; simpl; [|by eauto|done|done].
  apply union_subseteq_r.
Qed.

Lemma extends_new (f : loc → obj) : preserves extends (new_obj f).
Proof.
  intros st. split; simpl; [done| |done|done].
  intros l o Hl. exists o. split; [by apply lookup_app_l_Some|done].
Qed.

Lemma extends_args st l :
  LambdaArgs_instance st = None → extends st (after (set_LambdaArgs_instance l) st).
Proof.
  intros Hnone. split; simpl; [done|by eauto| |done].
  intros l'. by rewrite Hnone.
Qed.

Lemma extends_kwargs st l :
  LambdaKwargs_instance st = None → extends st (after (set_LambdaKwargs_instance l) st).
Proof.
  intros Hnone. split; simpl; [done|by eauto|done|].
  intros l'. by rewrite Hnone.
Qed.

Lemma extends_log st target : extends st (after (log_compilation target) st).
Proof. split; simpl; [done|by eauto|done|done]. Qed.

Lemma extends_set st target (s : slot) : extends st (after (set_lambda target s) st).
Proof.
  split; simpl; [done| |done|done].
  intros l o Hl. destruct (decide (target = l)) as [->|Hne].
  - eexists. rewrite list_lookup_alter_eq, Hl. done.
  - exists o. by rewrite list_lookup_alter_ne.
Qed.

(** Every call extends the state. *)
Lemma exec_extends (c : call) st : extends st (exec c st).
Proof.
  apply (exec_R extends); auto using extends_add, extends_new, extends_args,
    extends_kwargs, extends_log, extends_set.
Qed.


Lemma wf_obj_patcher l o target :
  wf_obj l o = true → _lambda o = Patcher target → target = l.
Proof.
  unfold wf_obj. intros [_ Hp]%andb_true_iff Ho. rewrite Ho in Hp.
  by apply bool_decide_eq_true in Hp.
Qed.

Lemma wf_obj_set_compiled l o (f : callable) :
  wf_obj l o = true → wf_obj l (Obj (cls o) (_tokens o) (Compiled f)) = true.
Proof.
  unfold wf_obj. simpl. intros [Hv _]%andb_true_iff. by rewrite Hv.
Qed.

Lemma keeps_compiled_refl st : keeps_compiled st st.
Proof. intros l o f Hl Hf. split; [by exists o|done]. Qed.

Lemma keeps_compiled_same st st' :
  heap st' = heap st → compilations st' = compilations st → keeps_compiled st st'.
Proof.
  intros Hh Hc l o f Hl Hf. unfold compiled_count. rewrite Hh, Hc.
  split; [by exists o|done].
Qed.

Lemma keeps_compiled_trans st1 st2 st3 :
  keeps_compiled st1 st2 → keeps_compiled st2 st3 → keeps_compiled st1 st3.
Proof.
  intros H12 H23 l o f Hl Hf.
  destruct (H12 l o f Hl Hf) as [(o2 & Hl2 & Hf2) Hc2].
  destruct (H23 l o2 f Hl2 Hf2) as [(o3 & Hl3 & Hf3) Hc3].
  split; [by exists o3|congruence].
Qed.

Global Instance stays_wf_preorder : PreOrder stays_wf.
Proof.
  split.
  - intros st Hwf. split; [done|apply keeps_compiled_refl].
  - intros st1 st2 st3 H12 H23 Hwf.
    destruct (H12 Hwf) as [Hwf2 Hk2]. destruct (H23 Hwf2) as [Hwf3 Hk3].
    split; [done|]. by eapply keeps_compiled_trans.
Qed.

Lemma stays_wf_add (name : string) : preserves stays_wf (registered_add name).
Proof. intros st Hwf. split; [done|by apply keeps_compiled_same]. Qed.

Lemma stays_wf_new (f : loc → obj) :
  (∀ l, wf_obj l (f l) = true) → preserves stays_wf (new_obj f).
Proof.
  intros Hf st Hwf. split.
  - apply wf_intro. simpl. intros l o [[_ Hl]|[-> <-]]%lookup_snoc_Some.
    + by apply (wf_lookup st).
    + apply Hf.
  - intros l o g Hl Hg. split; [|done].
    exists o. split; [|done]. simpl. by apply lookup_app_l_Some.
Qed.

Lemma stays_wf_args st l :
  LambdaArgs_instance st = None → stays_wf st (after (set_LambdaArgs_instance l) st).
Proof. intros _ Hwf. split; [done|by apply keeps_compiled_same]. Qed.

Lemma stays_wf_kwargs st l :
  LambdaKwargs_instance st = None → stays_wf st (after (set_LambdaKwargs_instance l) st).
Proof. intros _ Hwf. split; [done|by apply keeps_compiled_same]. Qed.

(** In a well-formed store the target of a patcher is the object that
    holds it, so the target is not compiled yet. *)
Lemma patcher_not_compiled st self o target l ol (f : callable) :
  wf st = true →
  heap st !! self = Some o → _lambda o = Patcher target →
  heap st !! l = Some ol → _lambda ol = Compiled f →
  target ≠ l.
Proof.
  intros Hwf Ho Hp Hl Hf ->.
  pose proof (wf_obj_patcher _ _ _ (wf_lookup _ _ _ Hwf Ho) Hp) as ->.
  congruence.
Qed.

Lemma stays_wf_log st self o target :
  heap st !! self = Some o → _lambda o = Patcher target →
  stays_wf st (after (log_compilation target) st).
Proof.
  intros Ho Hp Hwf. split; [done|].
  intros l ol f Hl Hf. split; [by exists ol|].
  unfold compiled_count. simpl. rewrite count_occ_app. simpl.
  pose proof (patcher_not_compiled _ _ _ _ _ _ _ Hwf Ho Hp Hl Hf).
  destruct (Nat.eq_dec target l); [done|lia].
Qed.

Lemma stays_wf_set st self o target (f : callable) :
  heap st !! self = Some o → _lambda o = Patcher target →
  stays_wf st (after (set_lambda target (Compiled f)) st).
Proof.
  intros Ho Hp Hwf. split.
  - apply wf_intro. simpl. intros l ol Hl.
    destruct (decide (target = l)) as [->|Hne].
    + rewrite list_lookup_alter_eq in Hl.
      destruct (heap st !! l) as [ol'|] eqn:Hl'; simplify_eq/=.
      apply wf_obj_set_compiled. by apply (wf_lookup st).
    + rewrite list_lookup_alter_ne in Hl by done. by apply (wf_lookup st).
  - intros l ol g Hl Hg. split; [|done].
    pose proof (patcher_not_compiled _ _ _ _ _ _ _ Hwf Ho Hp Hl Hg).
    exists ol. simpl. by rewrite list_lookup_alter_ne.
Qed.


Lemma run_stays_wf (cs : list call) st : stays_wf st (run cs st).
Proof.
  apply (run_R stays_wf); eauto using stays_wf_add, stays_wf_new, stays_wf_args,
    stays_wf_kwargs, stays_wf_log, stays_wf_set.
Qed.

Lemma wf_initial : wf initial = true.
Proof. reflexivity. Qed.

(** Every state the module reaches is well formed. *)
Lemma run_wf (cs : list call) : wf (run cs initial) = true.
Proof. by apply (run_stays_wf cs initial). Qed.

End relations.

(** ** Placeholders, markers and compilation *)

Section claims.
Context `{Runtime}.

Implicit Types (st : state) (o : obj) (l self : loc).


Lemma LambdaVar__init__registered st (n : string) :
  n ∈ _registered_vars st →
  LambdaVar__init__ n st = (Raise (already_created n), st).
Proof.
  intros Hn. unfold LambdaVar__init__, bind, get_registered.
  by rewrite decide_True.
Qed.

Lemma LambdaVar__init__invalid st (n : string) :
  isidentifier n = false ∨ iskeyword n = true → n ∉ _registered_vars st →
  LambdaVar__init__ n st = (Raise (not_an_identifier n), st).
Proof.
  intros Hbad Hn. unfold LambdaVar__init__, bind, get_registered.
  rewrite decide_False by done.
  by destruct Hbad as [-> | ->]; [|rewrite orb_true_r].
Qed.


(** C7, as the code has it: a name that fails identifier syntax or is a
    reserved word is rejected and the state is left as it was; the error
    is the invalid-identifier one when the name is not registered, and
    the naming conflict when it is. *)
Theorem invalid_name_rejected st (n : string) :
  isidentifier n = false ∨ iskeyword n = true →
  (n ∉ _registered_vars st →
     LambdaVar__init__ n st = (Raise (not_an_identifier n), st))
  ∧ (n ∈ _registered_vars st →
     LambdaVar__init__ n st = (Raise (already_created n), st))
  ∧ _registered_vars (after (LambdaVar__init__ n) st) = _registered_vars st.
Proof.
  intros Hbad.
  split; [by apply LambdaVar__init__invalid|].
  split; [by apply LambdaVar__init__registered|].
  unfold after. destruct (decide (n ∈ _registered_vars st)).
  - by rewrite LambdaVar__init__registered.
  - by rewrite LambdaVar__init__invalid.
Qed.







(** A compilation that fails is not recorded in the slot: the call
    raises, and the builder is as before except for the log. *)
Lemma call_fails_to_compile st l o (e : exn)
    (args : list pyobj) (kwargs : list (string * pyobj)) :
  heap st !! l = Some o → _lambda o = Patcher l →
  lambda_source o (_registered_vars st) = Raise e
  ∨ (∃ source, lambda_source o (_registered_vars st) = Ok source
               ∧ py_eval source = Raise e) →
  __call__ l args kwargs st
  = (Raise e,
     State (_registered_vars st) (heap st)
           (LambdaArgs_instance st) (LambdaKwargs_instance st)
           (compilations st ++ [l])).
Proof.
  intros Ho Hp Hfail.
  unfold __call__, bind. rewrite (get_obj_lookup _ _ o) by done. rewrite Hp.
  unfold _call_monkey_patcher, _eval, bind, lift, ret, get_registered. simpl.
  unfold get_obj. simpl. rewrite Ho.
  destruct Hfail as [->|(source & -> & Hf)]; simpl; [done|]. by rewrite Hf.
Qed.




End claims.

(** * Examples

    The docstrings of the module, and the theorems above at concrete
    states of the example runtime. *)

Section examples.
Local Existing Instance example_runtime.

(** [x - y] renders as [(x)-y]. *)
Example repr_x_minus_y :
  bind (binary OpSub 0 (Expr 1)) __str__ xy = (Ok "(x)-y", exec (Binary OpSub 0 (Expr 1)) xy).
Proof. reflexivity. Qed.

(** [x._('4', 'a', k='23', www='32')] renders as [(x)(4,a,k=23,www=32)]. *)
Example repr_call_args_kwargs :
  (bind (call_ 0 [VStr "4"; VStr "a"] [("k", VStr "23"); ("www", VStr "32")]) __str__ xy).1
  = Ok "(x)(4,a,k=23,www=32)".
Proof. reflexivity. Qed.

Example repr_call_kwargs :
  (bind (call_ 0 [] [("k", VStr "23"); ("www", VStr "32")]) __str__ xy).1
  = Ok "(x)(k=23,www=32)".
Proof. reflexivity. Qed.

Example repr_call_empty :
  (bind (call_ 0 [] []) __str__ xy).1 = Ok "(x)()".
Proof. reflexivity. Qed.

(** The same two placeholders combined in either order give the
    argument list [x; y]. *)
Example source_y_plus_x :
  lambda_source (Obj LambdaExpr [VStr "("; VStr "y"; VStr ")"; VStr "+"; VStr "x"] (Patcher 2))
                (_registered_vars xy)
  = Ok "lambda x,y:(y)+x".
Proof. by vm_compute. Qed.

Example source_x_plus_y :
  lambda_source (Obj LambdaExpr [VStr "("; VStr "x"; VStr ")"; VStr "+"; VStr "y"] (Patcher 2))
                (_registered_vars xy)
  = Ok "lambda x,y:(x)+y".
Proof. by vm_compute. Qed.

(** The markers sort before the names, keyword marker first. *)
Example source_markers :
  lambda_source (Obj LambdaExpr [VStr "("; VStr "*args"; VStr ")"; VStr "+"; VStr "**kwargs"]
                     (Patcher 2))
                (_registered_vars markers)
  = Ok "lambda **kwargs,*args:(*args)+**kwargs".
Proof. by vm_compute. Qed.

Lemma binary_render_compositional_witness :
  wf xy = true
  ∧ heap xy !! 0 = Some (Obj LambdaVar [VStr "x"] (Patcher 0))
  ∧ ∃ ra, __str__ 0 xy = (Ok ra, xy)
    ∧ (∀ b ob, heap xy !! b = Some ob →
         ∃ c st' rb,
           binary OpSub 0 (Expr b) xy = (Ok c, st')
           ∧ __str__ b xy = (Ok rb, xy)
           ∧ __str__ c st' = (Ok ("(" ++ ra ++ ")" ++ binop_token OpSub ++ rb)%string, st'))
    ∧ (∀ v : value,
         ∃ c st',
           binary OpSub 0 (Lit v) xy = (Ok c, st')
           ∧ __str__ c st' = (Ok ("(" ++ ra ++ ")" ++ binop_token OpSub ++ str v)%string, st')).
Proof.
  split; [reflexivity|]. split; [reflexivity|].
  apply (binary_render_compositional xy OpSub 0 (Obj LambdaVar [VStr "x"] (Patcher 0)));
    reflexivity.
Defined.




(** The same with a source that [eval] rejects: the empty expression. *)
Example empty_expression_recompiled :
  __call__ 0 [] [] (run [New_LambdaExpr []] initial)
  = (Raise (Raised "SyntaxError" "invalid syntax"),
     run [New_LambdaExpr []; Invoke 0 [] []] initial)
  ∧ compilations (run [New_LambdaExpr []; Invoke 0 [] []; Invoke 0 [] []] initial)
    = [0; 0].
Proof. repeat split; by vm_compute. Qed.

Lemma call_rejects_non_str_witness :
  heap xy !! 0 = Some (Obj LambdaVar [VStr "x"] (Patcher 0))
  ∧ VInt 4 ∈ [VInt 4] ∧ is_str (VInt 4) = false
  ∧ ∃ msg, call_ 0 [VInt 4] [] xy = (Raise (TypeError msg), xy).
Proof.
  split; [reflexivity|]. split; [apply list_elem_of_singleton; reflexivity|].
  split; [reflexivity|].
  apply (call_rejects_non_str xy 0 (Obj LambdaVar [VStr "x"] (Patcher 0)));
    [reflexivity|].
  left. exists (VInt 4). split; [apply list_elem_of_singleton|]; reflexivity.
Defined.

(** The message is the one of the source. *)
Example call_rejects_int_message :
  call_ 0 [VInt 4] [] xy
  = (Raise (TypeError
       "Arguments should be of type `str`, got `<class 'int'>` (positional arg: 4)"), xy).
Proof. reflexivity. Qed.

Lemma invalid_name_rejected_witness :
  isidentifier "1x" = false
  ∧ (("1x" ∉ _registered_vars xy →
      LambdaVar__init__ "1x" xy = (Raise (not_an_identifier "1x"), xy))
     ∧ ("1x" ∈ _registered_vars xy →
        LambdaVar__init__ "1x" xy = (Raise (already_created "1x"), xy))
     ∧ _registered_vars (after (LambdaVar__init__ "1x") xy) = _registered_vars xy).
Proof.
  split; [reflexivity|].
  apply (invalid_name_rejected xy "1x"). left. reflexivity.
Defined.

(** C7 as stated fails on the names of the markers: once [LambdaArgs]
    has been constructed, its name is registered though it is no
    identifier, and a placeholder of that name is refused with the
    naming conflict, not with the invalid-identifier error. *)
Lemma registered_invalid_name_counterexample :
  isidentifier "*args" = false
  ∧ ("*args" ∈ _registered_vars (run [New_LambdaArgs] initial))
  ∧ LambdaVar__init__ "*args" (run [New_LambdaArgs] initial)
    = (Raise (NameError "Name `*args` has been already created"),
       run [New_LambdaArgs] initial)
  ∧ LambdaVar__init__ "*args" (run [New_LambdaArgs] initial)
    ≠ (Raise (not_an_identifier "*args"), run [New_LambdaArgs] initial).
Proof.
  split; [reflexivity|].
  split; [apply (bool_decide_unpack _); by vm_compute|].
  split; [by vm_compute|].
  vm_compute. intros Heq. discriminate Heq.
Qed.


(** Both markers at once: two objects, each returned again. *)
Example markers_distinct :
  LambdaArgs_ markers = (Ok 0, markers) ∧ LambdaKwargs_ markers = (Ok 1, markers).
Proof. split; reflexivity. Qed.

Lemma divmod_ignores_operand_witness :
  wf xy = true
  ∧ heap xy !! 0 = Some (Obj LambdaVar [VStr "x"] (Patcher 0))
  ∧ ∃ c st' ra,
      __divmod__ 0 (Expr 1) xy = (Ok c, st')
      ∧ __str__ 0 xy = (Ok ra, xy)
      ∧ __str__ c st' = (Ok ("divmod(" ++ ra ++ ")")%string, st')
      ∧ heap st' !! c
        = Some (Obj LambdaExpr
                  (VStr "divmod(" :: _tokens (Obj LambdaVar [VStr "x"] (Patcher 0))
                   ++ [VStr ")"]) (Patcher c))
      ∧ ∀ b' : operand, __divmod__ 0 b' xy = (Ok c, st').
Proof.
  split; [reflexivity|]. split; [reflexivity|].
  apply (divmod_ignores_operand xy 0 (Obj LambdaVar [VStr "x"] (Patcher 0)) (Expr 1));
    reflexivity.
Defined.

Example repr_divmod :
  (bind (__divmod__ 0 (Expr 1)) __str__ xy).1 = Ok "divmod(x)".
Proof. reflexivity. Qed.

Lemma round_renders_precision_witness :
  wf xy = true
  ∧ heap xy !! 0 = Some (Obj LambdaVar [VStr "x"] (Patcher 0))
  ∧ ∃ ra, __str__ 0 xy = (Ok ra, xy)
    ∧ (∃ c st',
         __round__ 0 None xy = (Ok c, st')
         ∧ __str__ c st' = (Ok ("round(" ++ ra ++ ",None)")%string, st'))
    ∧ (∀ n : Z, ∃ c st',
         __round__ 0 (Some (Lit (VInt n))) xy = (Ok c, st')
         ∧ __str__ c st'
           = (Ok ("round(" ++ ra ++ "," ++ str (VInt n) ++ ")")%string, st')).
Proof.
  split; [reflexivity|]. split; [reflexivity|].
  apply (round_renders_precision xy 0 (Obj LambdaVar [VStr "x"] (Patcher 0)));
    reflexivity.
Defined.

Example repr_round :
  (bind (__round__ 0 None) __str__ xy).1 = Ok "round(x,None)"
  ∧ (bind (__round__ 0 (Some (Lit (VInt 1)))) __str__ xy).1 = Ok "round(x,1)"
  ∧ (bind (__round__ 0 (Some (Lit (VInt (-2))))) __str__ xy).1 = Ok "round(x,-2)".
Proof. repeat split; by vm_compute. Qed.

End examples.

(** * Further properties of the module *)

(** ** Rendering of the other combinators *)

Section rendering.
Context `{Runtime}.

Implicit Types (st : state) (o : obj) (l self : loc).

Lemma format_operand_lit st (v : value) :
  format_operand (Lit v) st = (Ok (str v), st).
Proof. reflexivity. Qed.

Lemma format_operand_expr st l o :
  wf st = true → heap st !! l = Some o →
  format_operand (Expr l) st = (Ok (join_tokens (_tokens o)), st).
Proof.
  intros Hwf Hl. simpl. rewrite (str_lookup _ _ o Hl).
  by rewrite (str_obj_wf l o (wf_lookup _ _ _ Hwf Hl)).
Qed.

(** X3: attribute access renders as the builder in parentheses, a dot and
    the attribute name. *)
Theorem getattr_render st (a : loc) (oa : obj) (name : string) :
  wf st = true →
  heap st !! a = Some oa →
  ∃ c st' ra,
    __getattr__ a name st = (Ok c, st')
    ∧ __str__ a st = (Ok ra, st)
    ∧ __str__ c st' = (Ok ("(" ++ ra ++ ")." ++ name)%string, st').
Proof.
  intros Hwf Ha.
  pose proof (str_obj_wf _ _ (wf_lookup _ _ _ Hwf Ha)) as Hra.
  eexists _, _, (join_tokens (_tokens oa)).
  split; [unfold __getattr__, bind; rewrite (get_obj_lookup _ _ oa) by done;
          apply LambdaExpr_new|].
  split; [by rewrite (str_lookup _ _ oa), Hra|].
  rewrite str_new. do 2 f_equal.
  by rewrite join_tokens_cons, join_tokens_app.
Qed.

(** X4: each of the fourteen enclosing methods renders as its prefix, the
    builder and a closing parenthesis. *)
Theorem unary_render st (op : unop) (a : loc) (oa : obj) :
  wf st = true →
  heap st !! a = Some oa →
  ∃ c st' ra,
    unary op a st = (Ok c, st')
    ∧ __str__ a st = (Ok ra, st)
    ∧ __str__ c st' = (Ok (unop_prefix op ++ ra ++ ")")%string, st').
Proof.
  intros Hwf Ha.
  pose proof (str_obj_wf _ _ (wf_lookup _ _ _ Hwf Ha)) as Hra.
  eexists _, _, (join_tokens (_tokens oa)).
  split; [|split; [by rewrite (str_lookup _ _ oa), Hra|]].
  - assert (unary op a = enclose (unop_prefix op) a) as -> by (by destruct op).
    rewrite (enclose_lookup _ _ _ oa) by done. apply LambdaExpr_new.
  - rewrite str_new. do 2 f_equal.
    by rewrite join_tokens_cons, join_tokens_app.
Qed.

(** X5: the subscript methods write the formatted key, and the formatted
    value, into the closing token. *)
Theorem subscript_render st (a : loc) (oa : obj) (key value : operand)
    (k v : string) :
  wf st = true →
  heap st !! a = Some oa →
  format_operand key st = (Ok k, st) →
  format_operand value st = (Ok v, st) →
  ∃ ra, __str__ a st = (Ok ra, st)
  ∧ (∃ c st', __getitem__ a key st = (Ok c, st')
       ∧ __str__ c st' = (Ok ("(" ++ ra ++ ")[" ++ k ++ "]")%string, st'))
  ∧ (∃ c st', __setitem__ a key value st = (Ok c, st')
       ∧ __str__ c st' = (Ok ("(" ++ ra ++ ")[" ++ k ++ "]=" ++ v)%string, st'))
  ∧ (∃ c st', __delitem__ a key st = (Ok c, st')
       ∧ __str__ c st' = (Ok ("del (" ++ ra ++ ")[" ++ k ++ "]")%string, st')).
Proof.
  intros Hwf Ha Hk Hv.
  pose proof (str_obj_wf _ _ (wf_lookup _ _ _ Hwf Ha)) as Hra.
  exists (join_tokens (_tokens oa)).
  split; [by rewrite (str_lookup _ _ oa), Hra|].
  split; [|split]; eexists _, _.
  - split; [unfold __getitem__, bind; rewrite (get_obj_lookup _ _ oa) by done;
            rewrite Hk; apply LambdaExpr_new|].
    rewrite str_new. do 2 f_equal.
    by rewrite join_tokens_cons, join_tokens_app.
  - split; [unfold __setitem__, bind; rewrite (get_obj_lookup _ _ oa) by done;
            rewrite Hk, Hv; apply LambdaExpr_new|].
    rewrite str_new. do 2 f_equal.
    by rewrite join_tokens_cons, join_tokens_app.
  - split; [unfold __delitem__, bind; rewrite (get_obj_lookup _ _ oa) by done;
            rewrite Hk; apply LambdaExpr_new|].
    rewrite str_new. do 2 f_equal.
    by rewrite join_tokens_cons, join_tokens_app.
Qed.

(** X6: the membership method renders the item first, then [ in ] and the
    builder in parentheses. *)
Theorem contains_render st (a : loc) (oa : obj) (item : value) :
  wf st = true →
  heap st !! a = Some oa →
  ∃ c st' ra,
    __contains__ a item st = (Ok c, st')
    ∧ __str__ a st = (Ok ra, st)
    ∧ __str__ c st' = (Ok (str item ++ " in (" ++ ra ++ ")")%string, st').
Proof.
  intros Hwf Ha.
  pose proof (str_obj_wf _ _ (wf_lookup _ _ _ Hwf Ha)) as Hra.
  eexists _, _, (join_tokens (_tokens oa)).
  split; [unfold __contains__, bind; rewrite (get_obj_lookup _ _ oa) by done;
          apply LambdaExpr_new|].
  split; [by rewrite (str_lookup _ _ oa), Hra|].
  rewrite str_new. do 2 f_equal.
  by rewrite !join_tokens_cons, join_tokens_app.
Qed.

End rendering.

(** ** The call combinator: its text and its errors *)

Lemma comma_prefixed_cons (x : string) (xs : list string) :
  comma_prefixed (x :: xs) = ("," ++ x ++ comma_prefixed xs)%string.
Proof.
  unfold comma_prefixed. rewrite fmap_cons, concat_empty_cons.
  by rewrite append_assoc.
Qed.

Lemma comma_prefixed_app (xs ys : list string) :
  comma_prefixed (xs ++ ys) = (comma_prefixed xs ++ comma_prefixed ys)%string.
Proof. unfold comma_prefixed. by rewrite fmap_app, concat_empty_app. Qed.

Lemma concat_comma_cons (x : string) (xs : list string) :
  String.concat "," (x :: xs) = (x ++ comma_prefixed xs)%string.
Proof.
  revert x. induction xs as [|y ys IH]; intros x.
  - by rewrite append_nil_r.
  - change (String.concat "," (x :: y :: ys))
      with (x ++ "," ++ String.concat "," (y :: ys))%string.
    by rewrite IH, comma_prefixed_cons.
Qed.

Lemma concat_comma_app (xs ys : list string) :
  xs ≠ [] →
  String.concat "," (xs ++ ys)
  = (String.concat "," xs ++ comma_prefixed ys)%string.
Proof.
  destruct xs as [|x xs]; [done|]. intros _.
  change ((x :: xs) ++ ys) with (x :: (xs ++ ys)).
  rewrite !concat_comma_cons, comma_prefixed_app.
  by rewrite append_assoc.
Qed.

Lemma args_formatter_loop_text (it : list value) :
  forallb is_str it = true →
  ∃ tokens, args_formatter_loop it = Ok tokens
            ∧ join_tokens tokens = comma_prefixed (str <$> it).
Proof.
  induction it as [|arg it IH]; simpl; [by eexists|].
  intros [Harg Hit]%andb_true_iff. rewrite Harg.
  destruct (IH Hit) as (rest & -> & Hrest). eexists. split; [done|].
  by rewrite !join_tokens_cons, Hrest, comma_prefixed_cons.
Qed.

Lemma args_formatter_text (args : list value) :
  forallb is_str args = true →
  ∃ tokens, args_formatter args = Ok (tokens, bool_decide (args ≠ []))
            ∧ join_tokens tokens = String.concat "," (str <$> args).
Proof.
  destruct args as [|arg it]; [by eexists|].
  intros [Harg Hit]%andb_true_iff. unfold args_formatter. rewrite Harg.
  destruct (args_formatter_loop_text it Hit) as (rest & -> & Hrest).
  eexists. split; [done|].
  by rewrite join_tokens_cons, Hrest, fmap_cons, concat_comma_cons.
Qed.

Lemma kwargs_formatter_loop_text (it : list (string * value)) :
  forallb (λ kv, is_str kv.2) it = true →
  ∃ tokens, kwargs_formatter_loop it = Ok tokens
            ∧ join_tokens tokens = comma_prefixed (kwarg_text <$> it).
Proof.
  induction it as [|[k v] it IH]; simpl; [by eexists|].
  intros [Hv Hit]%andb_true_iff. rewrite Hv.
  destruct (IH Hit) as (rest & -> & Hrest). eexists. split; [done|].
  rewrite !join_tokens_cons, Hrest, comma_prefixed_cons. unfold kwarg_text.
  simpl. by rewrite !append_assoc.
Qed.

Lemma kwargs_formatter_text (comma : bool) (kwargs : list (string * value)) :
  forallb (λ kv, is_str kv.2) kwargs = true →
  ∃ tokens, kwargs_formatter comma kwargs = Ok tokens
            ∧ join_tokens tokens
              = if comma then comma_prefixed (kwarg_text <$> kwargs)
                else String.concat "," (kwarg_text <$> kwargs).
Proof.
  destruct kwargs as [|[k v] it]; [eexists; split; [done|by destruct comma]|].
  intros [Hv Hit]%andb_true_iff. unfold kwargs_formatter. simpl in Hv. rewrite Hv.
  destruct (kwargs_formatter_loop_text it Hit) as (rest & -> & Hrest).
  eexists. split; [done|]. rewrite fmap_cons.
  destruct comma.
  - rewrite comma_prefixed_cons.
    change ([VStr ","] ++ VStr (k ++ "=") :: v :: rest)
      with (VStr "," :: VStr (k ++ "=") :: v :: rest).
    rewrite !join_tokens_cons, Hrest. unfold kwarg_text.
    simpl. by rewrite !append_assoc.
  - rewrite concat_comma_cons.
    change ([] ++ VStr (k ++ "=") :: v :: rest)
      with (VStr (k ++ "=") :: v :: rest).
    rewrite !join_tokens_cons, Hrest. unfold kwarg_text.
    simpl. by rewrite !append_assoc.
Qed.

Section call_combinator.
Context `{Runtime}.

Implicit Types (st : state) (o : obj) (l self : loc).

(** X1: with [str] arguments the call combinator renders as the builder in
    parentheses followed by the argument list: the positional texts,
    then each keyword as [k=v], separated by commas, whichever of the
    two groups is empty. *)
Theorem call_render st (a : loc) (oa : obj)
    (args : list value) (kwargs : list (string * value)) :
  wf st = true →
  heap st !! a = Some oa →
  forallb is_str args = true →
  forallb (λ kv, is_str kv.2) kwargs = true →
  ∃ c st' ra,
    call_ a args kwargs st = (Ok c, st')
    ∧ __str__ a st = (Ok ra, st)
    ∧ __str__ c st'
      = (Ok ("(" ++ ra ++ ")("
             ++ String.concat "," ((str <$> args) ++ (kwarg_text <$> kwargs))
             ++ ")")%string, st').
Proof.
  intros Hwf Ha Hargs Hkwargs.
  pose proof (str_obj_wf _ _ (wf_lookup _ _ _ Hwf Ha)) as Hra.
  destruct (args_formatter_text args Hargs) as (positional & Hpos & Hptext).
  destruct (kwargs_formatter_text (bool_decide (args ≠ [])) kwargs Hkwargs)
    as (keyword & Hkw & Hktext).
  eexists _, _, (join_tokens (_tokens oa)).
  split; [unfold call_, bind, lift; rewrite (get_obj_lookup _ _ oa) by done;
          rewrite Hpos; simpl; rewrite Hkw; apply LambdaExpr_new|].
  split; [by rewrite (str_lookup _ _ oa), Hra|].
  rewrite str_new. do 2 f_equal.
  rewrite join_tokens_cons, join_tokens_app, join_tokens_cons, !join_tokens_app.
  rewrite Hptext, Hktext. simpl. do 3 f_equal.
  rewrite <- append_assoc. f_equal.
  destruct args as [|arg args].
  - by rewrite bool_decide_false by (by intros []).
  - rewrite bool_decide_true by done.
    by rewrite concat_comma_app by done.
Qed.

Lemma args_formatter_loop_offender (pre post : list value) (v : value) :
  forallb is_str pre = true → is_str v = false →
  args_formatter_loop (pre ++ v :: post) = Raise (positional_error v).
Proof.
  intros Hpre Hv. induction pre as [|p pre IH]; simpl.
  - by rewrite Hv.
  - apply andb_true_iff in Hpre as [-> Hpre]. by rewrite (IH Hpre).
Qed.

Lemma args_formatter_offender (pre post : list value) (v : value) :
  forallb is_str pre = true → is_str v = false →
  args_formatter (pre ++ v :: post) = Raise (positional_error v).
Proof.
  intros Hpre Hv. destruct pre as [|p pre]; simpl.
  - by rewrite Hv.
  - apply andb_true_iff in Hpre as [-> Hpre].
    by rewrite (args_formatter_loop_offender pre post v).
Qed.

Lemma kwargs_formatter_loop_offender (pre post : list (string * value))
    (k : string) (v : value) :
  forallb (λ kv, is_str kv.2) pre = true → is_str v = false →
  kwargs_formatter_loop (pre ++ (k, v) :: post) = Raise (kwarg_error k v).
Proof.
  intros Hpre Hv. induction pre as [|[k' v'] pre IH]; simpl.
  - by rewrite Hv.
  - apply andb_true_iff in Hpre as [Hv' Hpre]. simpl in Hv'. rewrite Hv'.
    by rewrite (IH Hpre).
Qed.

Lemma kwargs_formatter_offender (comma : bool) (pre post : list (string * value))
    (k : string) (v : value) :
  forallb (λ kv, is_str kv.2) pre = true → is_str v = false →
  kwargs_formatter comma (pre ++ (k, v) :: post) = Raise (kwarg_error k v).
Proof.
  intros Hpre Hv. destruct pre as [|[k' v'] pre]; simpl.
  - by rewrite Hv.
  - apply andb_true_iff in Hpre as [Hv' Hpre]. simpl in Hv'. rewrite Hv'.
    by rewrite (kwargs_formatter_loop_offender pre post k v).
Qed.

(** X2: the error of the call combinator names the first argument that is
    not a [str]: the first such positional argument if there is one,
    whatever the keywords are, and otherwise the first such keyword. *)
Theorem call_reports_first_offender st (self : loc) (o : obj)
    (args : list value) (kwargs : list (string * value)) :
  heap st !! self = Some o →
  (∀ pre v post,
     args = pre ++ v :: post → forallb is_str pre = true → is_str v = false →
     call_ self args kwargs st = (Raise (positional_error v), st))
  ∧ (∀ pre k v post,
       forallb is_str args = true →
       kwargs = pre ++ (k, v) :: post →
       forallb (λ kv, is_str kv.2) pre = true → is_str v = false →
       call_ self args kwargs st = (Raise (kwarg_error k v), st)).
Proof.
  intros Ho. split.
  - intros pre v post -> Hpre Hv. unfold call_, bind, lift.
    rewrite (get_obj_lookup _ _ o) by done.
    by rewrite (args_formatter_offender pre post v).
  - intros pre k v post Hargs -> Hpre Hv. unfold call_, bind, lift.
    rewrite (get_obj_lookup _ _ o) by done.
    destruct (args_formatter_text args Hargs) as (positional & -> & _). simpl.
    by rewrite (kwargs_formatter_offender _ pre post k v).
Qed.

End call_combinator.

(** ** Argument lists of combined builders *)

Lemma get_args_Ok (tokens : list value) (registered : gset string)
    (args : list string) :
  _get_args tokens registered = Ok args →
  forallb hashable tokens = true
  ∧ ∀ n, n ∈ args ↔ n ∈ registered ∧ VStr n ∈ tokens.
Proof.
  unfold _get_args. destruct (forallb hashable tokens); [|done].
  intros [= <-]. split; [done|].
  intros n. by rewrite elem_of_sorted, elem_of_get_args_set.
Qed.

Lemma get_args_elem_of (tokens : list value) (registered : gset string) :
  forallb hashable tokens = true →
  ∃ args, _get_args tokens registered = Ok args
          ∧ ∀ n, n ∈ args ↔ n ∈ registered ∧ VStr n ∈ tokens.
Proof.
  intros Hh. eexists. split; [by apply get_args_hashable|].
  intros n. by rewrite elem_of_sorted, elem_of_get_args_set.
Qed.

Lemma append_length (s1 s2 : string) :
  String.length (s1 ++ s2) = String.length s1 + String.length s2.
Proof.
  induction s1 as [|c s1 IH]; [done|].
  change (S (String.length (s1 ++ s2)) = S (String.length s1 + String.length s2)).
  by rewrite IH.
Qed.

Lemma StronglySorted_lookup_lt {A} (R : relation A) (l : list A)
    (i j : nat) (x y : A) :
  StronglySorted R l → l !! i = Some x → l !! j = Some y → i < j → R x y.
Proof.
  intros Hl. revert i j. induction Hl as [|a l Hl IH Hall]; intros i j Hi Hj Hij.
  - done.
  - destruct i as [|i], j as [|j]; simplify_eq/=; try lia.
    + by eapply Forall_lookup_1.
    + apply (IH i j); [done|done|lia].
Qed.

(** X10: when both marker names are arguments, the keyword marker comes
    before the positional one in the argument list, since [sorted]
    compares the names as text. *)
Theorem markers_argument_order (tokens : list value) (registered : gset string) :
  forallb hashable tokens = true →
  "*args" ∈ registered → "**kwargs" ∈ registered →
  VStr "*args" ∈ tokens → VStr "**kwargs" ∈ tokens →
  ∃ args i j,
    _get_args tokens registered = Ok args
    ∧ args !! i = Some "**kwargs" ∧ args !! j = Some "*args" ∧ i < j.
Proof.
  intros Hh Har Hkr Hat Hkt.
  destruct (get_args_elem_of tokens registered Hh) as (args & Hargs & Hin).
  assert ("*args" ∈ args) as [j Hj]%list_elem_of_lookup by (by apply Hin).
  assert ("**kwargs" ∈ args) as [i Hi]%list_elem_of_lookup by (by apply Hin).
  exists args, i, j. split; [done|]. split; [done|]. split; [done|].
  destruct (lt_eq_lt_dec i j) as [[Hlt| ->]|Hgt]; [done| |].
  - rewrite Hi in Hj. discriminate Hj.
  - exfalso.
    assert (StronglySorted String.le args) as Hsorted.
    { rewrite get_args_hashable in Hargs by done. injection Hargs as <-.
      apply sorted_StronglySorted. }
    by pose proof (StronglySorted_lookup_lt _ _ _ _ _ _ Hsorted Hj Hi Hgt).
Qed.

Section arguments.
Context `{Runtime}.

Implicit Types (st : state) (o : obj) (l self : loc).

(** X7: the arguments of [a op b], for builders [a] and [b], are those of
    [a] together with those of [b], as long as no delimiter has been
    registered as a name. *)
Theorem binary_args_union st (op : binop) (a b : loc) (oa ob : obj)
    (args_a args_b : list string) :
  heap st !! a = Some oa → heap st !! b = Some ob →
  "(" ∉ _registered_vars st → ")" ∉ _registered_vars st →
  binop_token op ∉ _registered_vars st →
  _get_args (_tokens oa) (_registered_vars st) = Ok args_a →
  _get_args (_tokens ob) (_registered_vars st) = Ok args_b →
  ∃ c st' oc args,
    binary op a (Expr b) st = (Ok c, st')
    ∧ heap st' !! c = Some oc
    ∧ _get_args (_tokens oc) (_registered_vars st') = Ok args
    ∧ ∀ n, n ∈ args ↔ n ∈ args_a ∨ n ∈ args_b.
Proof.
  intros Ha Hb Hopen Hclose Hop [Hha Hina]%get_args_Ok [Hhb Hinb]%get_args_Ok.
  set (tokens := VStr "(" :: _tokens oa ++ VStr ")"
                 :: (VStr <$> [binop_token op]) ++ _tokens ob).
  assert (forallb hashable tokens = true) as Hh.
  { subst tokens. simpl. rewrite forallb_app. simpl. by rewrite Hha, Hhb. }
  destruct (get_args_elem_of tokens (_registered_vars st) Hh) as (args & Hargs & Hin).
  eexists (length (heap st)), (with_new st tokens), _, args.
  split; [rewrite binary_collapse, (collapse_expr _ _ oa _ ob) by done;
          apply LambdaExpr_new|].
  split; [apply with_new_lookup_new|]. split; [exact Hargs|].
  intros n. rewrite Hin, Hina, Hinb. subst tokens.
  rewrite elem_of_cons, elem_of_app, elem_of_cons. simpl.
  rewrite elem_of_cons. split.
  - intros (Hn & [?|[?|[?|[?|?]]]]); simplify_eq; tauto.
  - intros [[Hn ?]|[Hn ?]]; (split; [done|]); tauto.
Qed.

(** X8: the arguments of [a op v], for a literal [v], are those of [a], and
    [v] itself when it is a [str] that is a registered name: the text
    of a string operand is spliced in as source, not quoted. *)
Theorem binary_args_literal st (op : binop) (a : loc) (oa : obj)
    (args_a : list string) (v : value) :
  heap st !! a = Some oa →
  "(" ∉ _registered_vars st → ")" ∉ _registered_vars st →
  binop_token op ∉ _registered_vars st →
  _get_args (_tokens oa) (_registered_vars st) = Ok args_a →
  hashable v = true →
  ∃ c st' oc args,
    binary op a (Lit v) st = (Ok c, st')
    ∧ heap st' !! c = Some oc
    ∧ _get_args (_tokens oc) (_registered_vars st') = Ok args
    ∧ ∀ n, n ∈ args ↔ n ∈ args_a ∨ (v = VStr n ∧ n ∈ _registered_vars st).
Proof.
  intros Ha Hopen Hclose Hop [Hha Hina]%get_args_Ok Hv.
  set (tokens := VStr "(" :: _tokens oa ++ VStr ")"
                 :: (VStr <$> [binop_token op]) ++ [v]).
  assert (forallb hashable tokens = true) as Hh.
  { subst tokens. simpl. rewrite forallb_app. simpl. by rewrite Hha, Hv. }
  destruct (get_args_elem_of tokens (_registered_vars st) Hh) as (args & Hargs & Hin).
  eexists (length (heap st)), (with_new st tokens), _, args.
  split; [rewrite binary_collapse, (collapse_lit _ _ oa) by done;
          apply LambdaExpr_new|].
  split; [apply with_new_lookup_new|]. split; [exact Hargs|].
  intros n. rewrite Hin, Hina. subst tokens.
  rewrite elem_of_cons, elem_of_app, elem_of_cons. simpl.
  rewrite elem_of_cons, list_elem_of_singleton. split.
  - intros (Hn & [?|[?|[?|[?|?]]]]); simplify_eq; tauto.
  - intros [[Hn ?]|[-> Hn]]; (split; [done|]); tauto.
Qed.

(** X9: a placeholder used as a subscript key is not an argument of the
    subscript expression unless the subscripted builder mentions it:
    its name ends up inside the closing token. *)
Theorem subscript_key_not_an_argument st (a b : loc) (oa ob : obj) (y : string) :
  heap st !! a = Some oa → heap st !! b = Some ob →
  is_var (cls ob) = true → _tokens ob = [VStr y] →
  y ∈ _registered_vars st →
  "(" ∉ _registered_vars st →
  VStr y ∉ _tokens oa →
  forallb hashable (_tokens oa) = true →
  ∃ c st' oc args,
    __getitem__ a (Expr b) st = (Ok c, st')
    ∧ heap st' !! c = Some oc
    ∧ _tokens oc = VStr "(" :: _tokens oa ++ [VStr (")[" ++ y ++ "]")]
    ∧ _get_args (_tokens oc) (_registered_vars st') = Ok args
    ∧ y ∉ args.
Proof.
  intros Ha Hb Hvar Htok Hy Hopen Hya Hha.
  set (tokens := VStr "(" :: _tokens oa ++ [VStr (")[" ++ y ++ "]")]).
  assert (forallb hashable tokens = true) as Hh.
  { subst tokens. simpl. rewrite forallb_app. simpl. by rewrite Hha. }
  destruct (get_args_elem_of tokens (_registered_vars st) Hh) as (args & Hargs & Hin).
  eexists (length (heap st)), (with_new st tokens), _, args.
  split.
  { unfold __getitem__, bind. rewrite (get_obj_lookup _ _ oa) by done.
    simpl. rewrite (str_lookup _ _ ob Hb).
    unfold str_obj, LambdaVar__str__. rewrite Hvar, Htok. apply LambdaExpr_new. }
  split; [apply with_new_lookup_new|]. split; [done|]. split; [exact Hargs|].
  rewrite Hin. subst tokens.
  rewrite elem_of_cons, elem_of_app, list_elem_of_singleton.
  intros (_ & [Heq|[?|Heq]]); [|done|].
  - injection Heq as ->. done.
  - injection Heq as Heq. apply (f_equal String.length) in Heq.
    rewrite !append_length in Heq. simpl in Heq. lia.
Qed.

End arguments.

(** ** Calls that construct no placeholder

    They change the state by constructing [LambdaExpr] objects, by
    logging a compilation and by assigning a compiled function: a
    preorder that these three updates respect is respected by each of
    them. *)

Section builders.
Context `{Runtime}.
Variable R : state → state → Prop.
Context `{!PreOrder R}.

Implicit Types (st : state) (o : obj) (l self : loc).

Hypothesis R_expr : ∀ tokens : list value, preserves R (LambdaExpr_ tokens).
Hypothesis R_log : ∀ st self o target,
  heap st !! self = Some o → _lambda o = Patcher target →
  R st (after (log_compilation target) st).
Hypothesis R_set : ∀ st self o target f,
  heap st !! self = Some o → _lambda o = Patcher target →
  R st (after (set_lambda target (Compiled f)) st).
















End builders.

(** ** Sequences of calls of every method *)

Section all_calls.
Context `{Runtime}.
Variable R : state → state → Prop.
Context `{!PreOrder R}.

Implicit Types (st : state) (o : obj) (l self : loc).

Hypothesis R_add : ∀ name, preserves R (registered_add name).
Hypothesis R_new : ∀ f : loc → obj,
  (∀ l, wf_obj l (f l) = true) → preserves R (new_obj f).
Hypothesis R_args : ∀ st l,
  LambdaArgs_instance st = None → R st (after (set_LambdaArgs_instance l) st).
Hypothesis R_kwargs : ∀ st l,
  LambdaKwargs_instance st = None → R st (after (set_LambdaKwargs_instance l) st).
Hypothesis R_log : ∀ st self o target,
  heap st !! self = Some o → _lambda o = Patcher target →
  R st (after (log_compilation target) st).
Hypothesis R_set : ∀ st self o target f,
  heap st !! self = Some o → _lambda o = Patcher target →
  R st (after (set_lambda target (Compiled f)) st).



End all_calls.

Section histories.
Context `{Runtime}.

Implicit Types (st : state) (o : obj) (l self : loc).






Global Instance stays_unset_preorder : PreOrder stays_unset.
Proof.
  split.
  - intros st Hwf. split; [done|]. intros l o Hl Hu. by exists o.
  - intros st1 st2 st3 H12 H23 Hwf.
    destruct (H12 Hwf) as [Hwf2 Hk2]. destruct (H23 Hwf2) as [Hwf3 Hk3].
    split; [done|]. intros l o Hl Hu.
    destruct (Hk2 l o Hl Hu) as (o2 & Hl2 & Hu2 & Hc2 & Ht2).
    destruct (Hk3 l o2 Hl2 Hu2) as (o3 & Hl3 & Hu3 & Hc3 & Ht3).
    exists o3. repeat split; congruence.
Qed.




(** X14: a compilation that fails is attempted again by the next call: both
    calls raise the same exception, and apart from two entries in the
    log of compilations the state is unchanged. *)
Theorem failed_compilation_is_retried st l o (e : exn)
    (args args' : list pyobj) (kwargs kwargs' : list (string * pyobj)) :
  heap st !! l = Some o → _lambda o = Patcher l →
  lambda_source o (_registered_vars st) = Raise e
  ∨ (∃ source, lambda_source o (_registered_vars st) = Ok source
               ∧ py_eval source = Raise e) →
  ∃ st1 st2,
    __call__ l args kwargs st = (Raise e, st1)
    ∧ __call__ l args' kwargs' st1 = (Raise e, st2)
    ∧ heap st2 = heap st
    ∧ _registered_vars st2 = _registered_vars st
    ∧ compilations st2 = compilations st ++ [l; l].
Proof.
  intros Ho Hp Hfail. eexists _, _.
  split; [by apply (call_fails_to_compile st l o e)|].
  split; [by apply (call_fails_to_compile _ l o e)|].
  simpl. by rewrite <- app_assoc.
Qed.

End histories.

(** ** Invariants of the registry and of the placeholders *)

Section placeholders.
Context `{Runtime}.

Implicit Types (st : state) (o : obj) (l self : loc).

Global Instance same_registry_preorder : PreOrder same_registry.
Proof.
  split; [by intros st|].
  intros st1 st2 st3 H12 H23. unfold same_registry in *. congruence.
Qed.







Global Instance same_placeholders_preorder : PreOrder same_placeholders.
Proof.
  split.
  - intros st. split; [done|done|done|]. intros l o Hl _. by exists o.
  - intros st1 st2 st3 [Hr1 Ha1 Hk1 Hh1] [Hr2 Ha2 Hk2 Hh2].
    split; [congruence|congruence|congruence|].
    intros l o3 Hl3 Hv3. destruct (Hh2 l o3 Hl3 Hv3) as (o2 & Hl2 & Hc2 & Ht2).
    destruct (Hh1 l o2 Hl2) as (o1 & Hl1 & Hc1 & Ht1); [by rewrite Hc2|].
    exists o1. split; [done|]. split; congruence.
Qed.







End placeholders.

(** ** The further properties at concrete states *)

Lemma markers_argument_order_witness :
  ("*args" ∈ ({["*args"; "**kwargs"; "x"]} : gset string))
  ∧ ("**kwargs" ∈ ({["*args"; "**kwargs"; "x"]} : gset string))
  ∧ ∃ args i j,
      _get_args [VStr "("; VStr "*args"; VStr ")"; VStr "+"; VStr "**kwargs"]
                {["*args"; "**kwargs"; "x"]} = Ok args
      ∧ args !! i = Some "**kwargs" ∧ args !! j = Some "*args" ∧ i < j.
Proof.
  assert ("*args" ∈ ({["*args"; "**kwargs"; "x"]} : gset string)) as Ha
    by (apply (bool_decide_unpack _); by vm_compute).
  assert ("**kwargs" ∈ ({["*args"; "**kwargs"; "x"]} : gset string)) as Hk
    by (apply (bool_decide_unpack _); by vm_compute).
  split; [exact Ha|]. split; [exact Hk|].
  apply (markers_argument_order
           [VStr "("; VStr "*args"; VStr ")"; VStr "+"; VStr "**kwargs"]
           {["*args"; "**kwargs"; "x"]});
    [reflexivity|exact Ha|exact Hk| |]; rewrite !elem_of_cons; auto 10.
Defined.

Section more_examples.
Local Existing Instance example_runtime.

Lemma getattr_render_witness :
  wf xy = true
  ∧ heap xy !! 0 = Some (Obj LambdaVar [VStr "x"] (Patcher 0))
  ∧ ∃ c st' ra,
      __getattr__ 0 "real" xy = (Ok c, st')
      ∧ __str__ 0 xy = (Ok ra, xy)
      ∧ __str__ c st' = (Ok ("(" ++ ra ++ ")." ++ "real")%string, st').
Proof.
  split; [reflexivity|]. split; [reflexivity|].
  apply (getattr_render xy 0 (Obj LambdaVar [VStr "x"] (Patcher 0)) "real");
    reflexivity.
Defined.

(** [x.real] renders as [(x).real]. *)
Example repr_getattr :
  (bind (__getattr__ 0 "real") __str__ xy).1 = Ok "(x).real".
Proof. reflexivity. Qed.

Lemma unary_render_witness :
  wf xy = true
  ∧ heap xy !! 0 = Some (Obj LambdaVar [VStr "x"] (Patcher 0))
  ∧ ∃ c st' ra,
      unary OpAbs 0 xy = (Ok c, st')
      ∧ __str__ 0 xy = (Ok ra, xy)
      ∧ __str__ c st' = (Ok (unop_prefix OpAbs ++ ra ++ ")")%string, st').
Proof.
  split; [reflexivity|]. split; [reflexivity|].
  apply (unary_render xy OpAbs 0 (Obj LambdaVar [VStr "x"] (Patcher 0))); reflexivity.
Defined.

Lemma subscript_render_witness :
  wf xy = true
  ∧ heap xy !! 0 = Some (Obj LambdaVar [VStr "x"] (Patcher 0))
  ∧ format_operand (Expr 1) xy = (Ok "y", xy)
  ∧ format_operand (Lit (VInt 3)) xy = (Ok "3", xy)
  ∧ ∃ ra, __str__ 0 xy = (Ok ra, xy)
    ∧ (∃ c st', __getitem__ 0 (Expr 1) xy = (Ok c, st')
         ∧ __str__ c st' = (Ok ("(" ++ ra ++ ")[" ++ "y" ++ "]")%string, st'))
    ∧ (∃ c st', __setitem__ 0 (Expr 1) (Lit (VInt 3)) xy = (Ok c, st')
         ∧ __str__ c st' = (Ok ("(" ++ ra ++ ")[" ++ "y" ++ "]=" ++ "3")%string, st'))
    ∧ (∃ c st', __delitem__ 0 (Expr 1) xy = (Ok c, st')
         ∧ __str__ c st' = (Ok ("del (" ++ ra ++ ")[" ++ "y" ++ "]")%string, st')).
Proof.
  split; [reflexivity|]. split; [reflexivity|].
  split; [reflexivity|]. split; [reflexivity|].
  apply (subscript_render xy 0 (Obj LambdaVar [VStr "x"] (Patcher 0))
           (Expr 1) (Lit (VInt 3)) "y" "3"); reflexivity.
Defined.

Example repr_subscripts :
  (bind (__getitem__ 0 (Lit (VInt 0))) __str__ xy).1 = Ok "(x)[0]"
  ∧ (bind (__getitem__ 0 (Lit (VStr "k"))) __str__ xy).1 = Ok "(x)[k]"
  ∧ (bind (__setitem__ 0 (Expr 1) (Lit (VInt 3))) __str__ xy).1 = Ok "(x)[y]=3"
  ∧ (bind (__delitem__ 0 (Expr 1)) __str__ xy).1 = Ok "del (x)[y]".
Proof. repeat split; by vm_compute. Qed.

Lemma contains_render_witness :
  wf xy = true
  ∧ heap xy !! 0 = Some (Obj LambdaVar [VStr "x"] (Patcher 0))
  ∧ ∃ c st' ra,
      __contains__ 0 (VInt 3) xy = (Ok c, st')
      ∧ __str__ 0 xy = (Ok ra, xy)
      ∧ __str__ c st' = (Ok (str (VInt 3) ++ " in (" ++ ra ++ ")")%string, st').
Proof.
  split; [reflexivity|]. split; [reflexivity|].
  apply (contains_render xy 0 (Obj LambdaVar [VStr "x"] (Patcher 0)) (VInt 3));
    reflexivity.
Defined.

Lemma call_render_witness :
  wf xy = true
  ∧ heap xy !! 0 = Some (Obj LambdaVar [VStr "x"] (Patcher 0))
  ∧ forallb is_str [VStr "4"; VStr "a"] = true
  ∧ forallb (λ kv : string * value, is_str kv.2) [("k", VStr "23")] = true
  ∧ ∃ c st' ra,
      call_ 0 [VStr "4"; VStr "a"] [("k", VStr "23")] xy = (Ok c, st')
      ∧ __str__ 0 xy = (Ok ra, xy)
      ∧ __str__ c st'
        = (Ok ("(" ++ ra ++ ")("
               ++ String.concat ","
                    ((str <$> [VStr "4"; VStr "a"])
                     ++ (kwarg_text <$> [("k", VStr "23")]))
               ++ ")")%string, st').
Proof.
  split; [reflexivity|]. split; [reflexivity|].
  split; [reflexivity|]. split; [reflexivity|].
  apply (call_render xy 0 (Obj LambdaVar [VStr "x"] (Patcher 0))); reflexivity.
Defined.

Lemma call_reports_first_offender_witness :
  heap xy !! 0 = Some (Obj LambdaVar [VStr "x"] (Patcher 0))
  ∧ call_ 0 [VStr "4"; VInt 5; VNone] [("k", VInt 6)] xy
    = (Raise (positional_error (VInt 5)), xy)
  ∧ call_ 0 [VStr "4"] [("k", VStr "1"); ("m", VNone); ("n", VInt 6)] xy
    = (Raise (kwarg_error "m" VNone), xy).
Proof.
  split; [reflexivity|].
  destruct (call_reports_first_offender xy 0 (Obj LambdaVar [VStr "x"] (Patcher 0))
              [VStr "4"; VInt 5; VNone] [("k", VInt 6)] eq_refl) as [Hpos _].
  destruct (call_reports_first_offender xy 0 (Obj LambdaVar [VStr "x"] (Patcher 0))
              [VStr "4"] [("k", VStr "1"); ("m", VNone); ("n", VInt 6)] eq_refl)
    as [_ Hkw].
  split.
  - apply (Hpos [VStr "4"] (VInt 5) [VNone]); reflexivity.
  - apply (Hkw [("k", VStr "1")] "m" VNone [("n", VInt 6)]); reflexivity.
Defined.

Lemma binary_args_union_witness :
  ("(" ∉ _registered_vars xy) ∧ (")" ∉ _registered_vars xy)
  ∧ (binop_token OpAdd ∉ _registered_vars xy)
  ∧ _get_args [VStr "y"] (_registered_vars xy) = Ok ["y"]
  ∧ _get_args [VStr "x"] (_registered_vars xy) = Ok ["x"]
  ∧ ∃ c st' oc args,
      binary OpAdd 1 (Expr 0) xy = (Ok c, st')
      ∧ heap st' !! c = Some oc
      ∧ _get_args (_tokens oc) (_registered_vars st') = Ok args
      ∧ ∀ n, n ∈ args ↔ n ∈ ["y"] ∨ n ∈ ["x"].
Proof.
  assert ("(" ∉ _registered_vars xy) as Hopen
    by (apply (bool_decide_unpack _); by vm_compute).
  assert (")" ∉ _registered_vars xy) as Hclose
    by (apply (bool_decide_unpack _); by vm_compute).
  assert (binop_token OpAdd ∉ _registered_vars xy) as Hop
    by (apply (bool_decide_unpack _); by vm_compute).
  split; [exact Hopen|]. split; [exact Hclose|]. split; [exact Hop|].
  split; [by vm_compute|]. split; [by vm_compute|].
  apply (binary_args_union xy OpAdd 1 0
           (Obj LambdaVar [VStr "y"] (Patcher 1)) (Obj LambdaVar [VStr "x"] (Patcher 0)));
    [reflexivity|reflexivity|exact Hopen|exact Hclose|exact Hop
    |by vm_compute|by vm_compute].
Defined.

Lemma binary_args_literal_witness :
  ("(" ∉ _registered_vars xy) ∧ (")" ∉ _registered_vars xy)
  ∧ (binop_token OpAdd ∉ _registered_vars xy)
  ∧ _get_args [VStr "x"] (_registered_vars xy) = Ok ["x"]
  ∧ ∃ c st' oc args,
      binary OpAdd 0 (Lit (VStr "y")) xy = (Ok c, st')
      ∧ heap st' !! c = Some oc
      ∧ _get_args (_tokens oc) (_registered_vars st') = Ok args
      ∧ ∀ n, n ∈ args ↔ n ∈ ["x"] ∨ (VStr "y" = VStr n ∧ n ∈ _registered_vars xy).
Proof.
  assert ("(" ∉ _registered_vars xy) as Hopen
    by (apply (bool_decide_unpack _); by vm_compute).
  assert (")" ∉ _registered_vars xy) as Hclose
    by (apply (bool_decide_unpack _); by vm_compute).
  assert (binop_token OpAdd ∉ _registered_vars xy) as Hop
    by (apply (bool_decide_unpack _); by vm_compute).
  split; [exact Hopen|]. split; [exact Hclose|]. split; [exact Hop|].
  split; [by vm_compute|].
  apply (binary_args_literal xy OpAdd 0 (Obj LambdaVar [VStr "x"] (Patcher 0))
           ["x"] (VStr "y"));
    [reflexivity|exact Hopen|exact Hclose|exact Hop|by vm_compute|reflexivity].
Defined.

(** The string literal ['y'] becomes the argument y. *)
Example source_string_literal :
  lambda_source (Obj LambdaExpr [VStr "("; VStr "x"; VStr ")"; VStr "+"; VStr "y"] (Patcher 2))
                (_registered_vars xy)
  = Ok "lambda x,y:(x)+y".
Proof. by vm_compute. Qed.

Lemma subscript_key_not_an_argument_witness :
  ("y" ∈ _registered_vars xy) ∧ ("(" ∉ _registered_vars xy)
  ∧ (VStr "y" ∉ [VStr "x"])
  ∧ ∃ c st' oc args,
      __getitem__ 0 (Expr 1) xy = (Ok c, st')
      ∧ heap st' !! c = Some oc
      ∧ _tokens oc = VStr "(" :: [VStr "x"] ++ [VStr (")[" ++ "y" ++ "]")]
      ∧ _get_args (_tokens oc) (_registered_vars st') = Ok args
      ∧ "y" ∉ args.
Proof.
  assert ("y" ∈ _registered_vars xy) as Hy
    by (apply (bool_decide_unpack _); by vm_compute).
  assert ("(" ∉ _registered_vars xy) as Hopen
    by (apply (bool_decide_unpack _); by vm_compute).
  assert (VStr "y" ∉ [VStr "x"]) as Hyx
    by (by intros ?%list_elem_of_singleton).
  split; [exact Hy|]. split; [exact Hopen|]. split; [exact Hyx|].
  apply (subscript_key_not_an_argument xy 0 1
           (Obj LambdaVar [VStr "x"] (Patcher 0)) (Obj LambdaVar [VStr "y"] (Patcher 1)) "y");
    [reflexivity|reflexivity|reflexivity|reflexivity|exact Hy|exact Hopen|exact Hyx
    |reflexivity].
Defined.

(** [x[y]] is compiled with the single argument x. *)
Example source_subscript :
  lambda_source (Obj LambdaExpr [VStr "("; VStr "x"; VStr ")[y]"] (Patcher 2))
                (_registered_vars xy)
  = Ok "lambda x:(x)[y]".
Proof. by vm_compute. Qed.



Lemma failed_compilation_is_retried_witness :
  heap x_plus_list !! 1
  = Some (Obj LambdaExpr [VStr "("; VStr "x"; VStr ")"; VStr "+"; VList [1%Z]] (Patcher 1))
  ∧ lambda_source
      (Obj LambdaExpr [VStr "("; VStr "x"; VStr ")"; VStr "+"; VList [1%Z]] (Patcher 1))
      (_registered_vars x_plus_list)
    = Raise (TypeError "unhashable type: 'list'")
  ∧ ∃ st1 st2,
      __call__ 1 [VInt 5] [] x_plus_list = (Raise (TypeError "unhashable type: 'list'"), st1)
      ∧ __call__ 1 [VInt 6] [] st1 = (Raise (TypeError "unhashable type: 'list'"), st2)
      ∧ heap st2 = heap x_plus_list
      ∧ _registered_vars st2 = _registered_vars x_plus_list
      ∧ compilations st2 = compilations x_plus_list ++ [1; 1].
Proof.
  split; [reflexivity|]. split; [reflexivity|].
  apply (failed_compilation_is_retried x_plus_list 1
           (Obj LambdaExpr [VStr "("; VStr "x"; VStr ")"; VStr "+"; VList [1%Z]] (Patcher 1))
           (TypeError "unhashable type: 'list'") [VInt 5] [VInt 6] [] []);
    [reflexivity|reflexivity|left; reflexivity].
Defined.



End more_examples.

(** ** The argument list and the registry at the time of compilation *)

(** X11: registering a name that occurs as a token of a builder adds that
    name, and no other, to the argument list the builder is compiled
    with: the registry is read when the builder is first called, not
    when it is built. *)
Theorem registration_adds_argument (tokens : list value)
    (registered : gset string) (n : string) :
  forallb hashable tokens = true →
  VStr n ∈ tokens →
  n ∉ registered →
  ∃ before after_,
    _get_args tokens registered = Ok before
    ∧ _get_args tokens ({[n]} ∪ registered) = Ok after_
    ∧ (n ∉ before) ∧ (n ∈ after_)
    ∧ ∀ m, m ≠ n → (m ∈ before ↔ m ∈ after_).
Proof.
  intros Hh Hn Hfresh.
  destruct (get_args_elem_of tokens registered Hh) as (before & Hb & Hinb).
  destruct (get_args_elem_of tokens ({[n]} ∪ registered) Hh) as (after_ & Ha & Hina).
  exists before, after_. split; [done|]. split; [done|].
  split; [rewrite Hinb; tauto|].
  split; [rewrite Hina, elem_of_union, elem_of_singleton; tauto|].
  intros m Hm. rewrite Hinb, Hina, elem_of_union, elem_of_singleton. tauto.
Qed.

Lemma registration_adds_argument_witness :
  (VStr "y" ∈ [VStr "("; VStr "x"; VStr ")"; VStr "+"; VStr "y"])
  ∧ ("y" ∉ ({["x"]} : gset string))
  ∧ ∃ before after_,
      _get_args [VStr "("; VStr "x"; VStr ")"; VStr "+"; VStr "y"] {["x"]} = Ok before
      ∧ _get_args [VStr "("; VStr "x"; VStr ")"; VStr "+"; VStr "y"] ({["y"]} ∪ {["x"]})
        = Ok after_
      ∧ ("y" ∉ before) ∧ ("y" ∈ after_)
      ∧ ∀ m, m ≠ "y" → (m ∈ before ↔ m ∈ after_).
Proof.
  assert (VStr "y" ∈ [VStr "("; VStr "x"; VStr ")"; VStr "+"; VStr "y"]) as Hy
    by (rewrite !elem_of_cons; auto 10).
  assert ("y" ∉ ({["x"]} : gset string)) as Hfresh
    by (by intros ?%elem_of_singleton).
  split; [exact Hy|]. split; [exact Hfresh|].
  apply (registration_adds_argument
           [VStr "("; VStr "x"; VStr ")"; VStr "+"; VStr "y"] {["x"]} "y");
    [reflexivity|exact Hy|exact Hfresh].
Defined.

Section compilation.
Context `{Runtime}.

Implicit Types (st : state) (o : obj) (l self : loc).

(** X12: the enclosing methods keep the argument list of the builder, as
    long as neither their prefix nor the closing parenthesis has been
    registered as a name. *)
Theorem unary_args_kept st (op : unop) (a : loc) (oa : obj) (args_a : list string) :
  heap st !! a = Some oa →
  unop_prefix op ∉ _registered_vars st → ")" ∉ _registered_vars st →
  _get_args (_tokens oa) (_registered_vars st) = Ok args_a →
  ∃ c st' oc,
    unary op a st = (Ok c, st')
    ∧ heap st' !! c = Some oc
    ∧ _get_args (_tokens oc) (_registered_vars st') = Ok args_a.
Proof.
  intros Ha Hprefix Hclose Hargs.
  destruct (get_args_Ok _ _ _ Hargs) as [Hha Hina].
  set (tokens := VStr (unop_prefix op) :: _tokens oa ++ [VStr ")"]).
  assert (forallb hashable tokens = true) as Hh.
  { subst tokens. simpl. rewrite forallb_app. simpl. by rewrite Hha. }
  eexists (length (heap st)), (with_new st tokens), _.
  split.
  { assert (unary op a = enclose (unop_prefix op) a) as -> by (by destruct op).
    rewrite (enclose_lookup _ _ _ oa) by done. apply LambdaExpr_new. }
  split; [apply with_new_lookup_new|]. simpl.
  rewrite get_args_hashable by done.
  rewrite get_args_hashable in Hargs by done. injection Hargs as <-.
  do 2 f_equal. apply set_eq. intros n.
  rewrite !elem_of_get_args_set. subst tokens.
  rewrite elem_of_cons, elem_of_app, list_elem_of_singleton. split.
  - intros (Hn & [?|[?|?]]); simplify_eq; tauto.
  - intros [Hn ?]. tauto.
Qed.

(** X13: a builder that holds a list literal cannot be compiled: hashing its
    tokens raises, so every call of it raises that [TypeError], whatever
    the registry holds and whatever [eval] would accept. *)
Theorem unhashable_token_never_compiles st l o (zs : list Z)
    (args : list pyobj) (kwargs : list (string * pyobj)) :
  heap st !! l = Some o → _lambda o = Patcher l →
  VList zs ∈ _tokens o →
  ∃ st1,
    __call__ l args kwargs st = (Raise (TypeError "unhashable type: 'list'"), st1)
    ∧ heap st1 = heap st
    ∧ _registered_vars st1 = _registered_vars st.
Proof.
  intros Ho Hp Hzs.
  assert (forallb hashable (_tokens o) = false) as Hh
    by (by apply (forallb_false_intro _ _ (VList zs))).
  eexists. split.
  - apply (call_fails_to_compile st l o); [done|done|].
    left. unfold lambda_source. by rewrite get_args_unhashable.
  - done.
Qed.

End compilation.

Section compilation_examples.
Local Existing Instance example_runtime.

Lemma unary_args_kept_witness :
  (unop_prefix OpNeg ∉ _registered_vars xy) ∧ (")" ∉ _registered_vars xy)
  ∧ _get_args [VStr "x"] (_registered_vars xy) = Ok ["x"]
  ∧ ∃ c st' oc,
      unary OpNeg 0 xy = (Ok c, st')
      ∧ heap st' !! c = Some oc
      ∧ _get_args (_tokens oc) (_registered_vars st') = Ok ["x"].
Proof.
  assert (unop_prefix OpNeg ∉ _registered_vars xy) as Hprefix
    by (apply (bool_decide_unpack _); by vm_compute).
  assert (")" ∉ _registered_vars xy) as Hclose
    by (apply (bool_decide_unpack _); by vm_compute).
  split; [exact Hprefix|]. split; [exact Hclose|]. split; [by vm_compute|].
  apply (unary_args_kept xy OpNeg 0 (Obj LambdaVar [VStr "x"] (Patcher 0)) ["x"]);
    [reflexivity|exact Hprefix|exact Hclose|by vm_compute].
Defined.

Lemma unhashable_token_never_compiles_witness :
  heap x_plus_list !! 1
  = Some (Obj LambdaExpr [VStr "("; VStr "x"; VStr ")"; VStr "+"; VList [1%Z]] (Patcher 1))
  ∧ (VList [1%Z] ∈ [VStr "("; VStr "x"; VStr ")"; VStr "+"; VList [1%Z]])
  ∧ ∃ st1,
      __call__ 1 [VInt 5] [] x_plus_list
      = (Raise (TypeError "unhashable type: 'list'"), st1)
      ∧ heap st1 = heap x_plus_list
      ∧ _registered_vars st1 = _registered_vars x_plus_list.
Proof.
  assert (VList [1%Z] ∈ [VStr "("; VStr "x"; VStr ")"; VStr "+"; VList [1%Z]]) as Hin
    by (rewrite !elem_of_cons; auto 10).
  split; [reflexivity|]. split; [exact Hin|].
  apply (unhashable_token_never_compiles x_plus_list 1
           (Obj LambdaExpr [VStr "("; VStr "x"; VStr ")"; VStr "+"; VList [1%Z]] (Patcher 1))
           [1%Z] [VInt 5] []); [reflexivity|reflexivity|exact Hin].
Defined.

End compilation_examples.
